(** * Verification of the MOE provider client (lib/ai/providers/moe.ts)

    Shallow embedding of the TypeScript client that talks to the Python
    Mixture-of-Experts service: the health check [checkMOEAvailability],
    the processing call [processMOEText], the message-text helper
    [extractMessageText] and the provider entry [processMOERequest]
    built by [createMOEProvider].

    JavaScript values are modelled by [JSVal]; asynchronous code is
    modelled in a small state-and-exception monad [M] whose state records
    every outbound HTTP request and supplies the reply of each [fetch]. *)

From Stdlib Require Import String Ascii List Bool ZArith QArith Lia Relations.
Set Warnings "-register-all".
Import ListNotations.
Open Scope string_scope.

(** ** JavaScript values *)

(** The values the code inspects: the primitive types, arrays and plain
    objects (an object is the list of its own properties, as produced by
    [JSON.parse] or an object literal). *)
Inductive JSVal : Type :=
| JUndefined
| JNull
| JBool (b : bool)
| JNum (q : Q)
| JNaN
| JStr (s : string)
| JArr (xs : list JSVal)
| JObj (fields : list (string * JSVal)).

(** JavaScript truthiness ([!v] is [negb (truthy v)]). *)
Definition truthy (v : JSVal) : bool :=
  match v with
  | JUndefined | JNull | JNaN => false
  | JBool b => b
  | JNum q => negb (Qeq_bool q 0)
  | JStr s => negb (String.eqb s "")
  | JArr _ | JObj _ => true
  end.

(** [v === 's'] against a string literal. *)
Definition strict_eq_str (v : JSVal) (s : string) : bool :=
  match v with
  | JStr s' => String.eqb s' s
  | _ => false
  end.

Fixpoint lookup_field (k : string) (fs : list (string * JSVal)) : option JSVal :=
  match fs with
  | [] => None
  | (k', v) :: rest => if String.eqb k k' then Some v else lookup_field k rest
  end.

(** Property read [v.k]: [None] when [v] is [null] or [undefined] (the
    read throws a TypeError), [undefined] for a missing property.  The
    properties this module reads ([content], [role], [status],
    [models_loaded], [result], ...) are never own properties of
    primitives or arrays. *)
Definition get_prop (v : JSVal) (k : string) : option JSVal :=
  match v with
  | JUndefined | JNull => None
  | JObj fs => Some (match lookup_field k fs with Some x => x | None => JUndefined end)
  | _ => Some JUndefined
  end.

(** [Array.prototype.join] on an array of strings. *)
Fixpoint join (sep : string) (xs : list string) : string :=
  match xs with
  | [] => ""
  | [x] => x
  | x :: rest => String.append x (String.append sep (join sep rest))
  end.

(** [.filter((part) => typeof part === 'string')] *)
Definition string_parts (xs : list JSVal) : list string :=
  flat_map (fun p => match p with JStr s => [s] | _ => [] end) xs.

(** ** extractMessageText (moe.ts, lines 119-136) *)
Definition extractMessageText (message : JSVal) : string :=
  if negb (truthy message) then "" else
  match get_prop message "content" with
  | None => "" (* unreachable: a truthy value is neither null nor undefined *)
  | Some content =>
      if negb (truthy content) then "" else
      match content with
      | JStr s => s
      | JArr parts => join " " (string_parts parts)
      | _ => ""
      end
  end.

(** ** The world: HTTP requests and replies

    [fetch] sends one request and receives the next reply the world has
    queued for it.  A reply is a timeout abort (the [AbortController] of the
    caller fired), a transport failure, or a response with its [ok] flag,
    its status code and its body ([None] when [response.json()] rejects
    because the body is not JSON). *)

Inductive Method := GET | POST.

Record Request := mkRequest {
  req_method : Method;
  req_url : string;
  req_body : option JSVal;   (* the object passed to JSON.stringify *)
  req_timeout_ms : Z         (* the delay of the abort timer *)
}.

Inductive Reply :=
| RAbort
| RNetError (msg : string)
| RResponse (ok : bool) (status : Z) (body : option JSVal).

Record World := mkWorld {
  sent : list Request;     (* every request issued so far, oldest first *)
  replies : list Reply     (* replies still to be delivered, in order *)
}.

(** Exceptions raised by the code or by the platform. *)
Inductive Exn :=
| EAbortError                   (* DOMException named AbortError *)
| ETypeError (msg : string)     (* failed fetch, property read on null *)
| ESyntaxError                  (* response.json() on a non-JSON body *)
| EError (msg : string)         (* new Error(msg) *)
| EMOEError (status : option Z). (* new MOEError(message, status) *)

(** Asynchronous code that may reject: state passing plus exceptions. *)
Definition M (A : Type) : Type := World -> World * (Exn + A).

Definition ret {A} (a : A) : M A := fun w => (w, inr a).
Definition throw {A} (e : Exn) : M A := fun w => (w, inl e).
Definition bind {A B} (m : M A) (k : A -> M B) : M B :=
  fun w => match m w with
           | (w', inl e) => (w', inl e)
           | (w', inr a) => k a w'
           end.
(** [try { m } catch (e) { h e }] *)
Definition try_catch {A} (m : M A) (h : Exn -> M A) : M A :=
  fun w => match m w with
           | (w', inl e) => h e w'
           | (w', inr a) => (w', inr a)
           end.

Notation "x <- c1 ;; c2" := (bind c1 (fun x => c2))
  (at level 61, c1 at next level, right associativity).

(** Reading a property, throwing a TypeError on null or undefined. *)
Definition read (v : JSVal) (k : string) : M JSVal :=
  match get_prop v k with
  | Some x => ret x
  | None => throw (ETypeError "Cannot read properties of null")
  end.

Record Response := mkResponse { resp_ok : bool; resp_status : Z; resp_body : option JSVal }.

(** [fetch(url, init)]: logs the request and consumes one reply.  When the
    world has no reply left the connection is refused. *)
Definition fetch (r : Request) : M Response :=
  fun w =>
    let w' rest := mkWorld (app (sent w) [r]) rest in
    match replies w with
    | [] => (w' [], inl (ETypeError "fetch failed"))
    | RAbort :: rest => (w' rest, inl EAbortError)
    | RNetError m :: rest => (w' rest, inl (ETypeError m))
    | RResponse ok st b :: rest => (w' rest, inr (mkResponse ok st b))
    end.

(** [response.json()] *)
Definition json (r : Response) : M JSVal :=
  match resp_body r with
  | Some v => ret v
  | None => throw ESyntaxError
  end.

(** ** Configuration (moe.ts, lines 9-10), at the defaults used when the
    environment variables are unset. *)
Definition MOE_API_BASE_URL : string := "http://localhost:8000".
Definition MOE_TIMEOUT_MS : Z := 30000%Z.

(** ** checkMOEAvailability (moe.ts, lines 42-64) *)
Definition health_request : Request :=
  mkRequest GET (String.append MOE_API_BASE_URL "/health") None 5000%Z.

Definition checkMOEAvailability : M JSVal :=
  try_catch
    (response <- fetch health_request ;;
     if negb (resp_ok response) then ret (JBool false) else
     data <- json response ;;
     status <- read data "status" ;;
     (* data.status === 'healthy' && data.models_loaded *)
     if strict_eq_str status "healthy" then read data "models_loaded"
     else ret (JBool false))
    (fun _ => ret (JBool false)).

(** ** processMOEText (moe.ts, lines 72-114) *)

(** The destructured second parameter [{ task = 'process', options = {} }];
    [None] stands for a field left undefined, which takes its default. *)
Record MOERequestOptions := mkOptions {
  opt_task : option string;
  opt_options : option JSVal
}.

Definition no_options : MOERequestOptions := mkOptions None None.

Definition process_url : string := String.append MOE_API_BASE_URL "/process/sync".

Definition process_request (text task : string) (options : JSVal) : Request :=
  mkRequest POST process_url
    (Some (JObj [("text", JStr text); ("task", JStr task); ("options", options)]))
    MOE_TIMEOUT_MS.

Definition processMOEText (text : string) (o : MOERequestOptions) : M JSVal :=
  let task := match opt_task o with Some t => t | None => "process" end in
  let options := match opt_options o with Some v => v | None => JObj [] end in
  try_catch
    (response <- fetch (process_request text task options) ;;
     if negb (resp_ok response) then throw (EMOEError (Some (resp_status response)))
     else json response)
    (fun error =>
       match error with
       | EMOEError st => throw (EMOEError st)
       | EAbortError => throw (EMOEError (Some 408%Z))
       | _ => throw (EMOEError None)
       end).

(** ** processMOERequest (moe.ts, lines 141-178)

    The method of the object returned by [createMOEProvider(fallbackProvider)];
    neither [fallbackProvider] nor the [options] parameter is read by its
    body. *)

Fixpoint filterM {A} (p : A -> M bool) (xs : list A) : M (list A) :=
  match xs with
  | [] => ret []
  | x :: rest =>
      b <- p x ;;
      ys <- filterM p rest ;;
      ret (if b then x :: ys else ys)
  end.

(** [arr.pop()]: the last element, [undefined] on an empty array. *)
Definition pop_last (xs : list JSVal) : JSVal :=
  match rev xs with
  | [] => JUndefined
  | x :: _ => x
  end.

(** [{ usedFallback: true }] *)
Definition fallback_result : JSVal := JObj [("usedFallback", JBool true)].

(** [(m) => m.role === 'user'] *)
Definition is_user_message (m : JSVal) : M bool :=
  role <- read m "role" ;; ret (strict_eq_str role "user").

Definition processMOERequest (messages : list JSVal) (options : JSVal) : M JSVal :=
  try_catch
    (isMOEAvailable <- checkMOEAvailability ;;
     if negb (truthy isMOEAvailable) then ret fallback_result else
     users <- filterM is_user_message messages ;;
     let lastUserMessage := pop_last users in
     if negb (truthy lastUserMessage) then throw (EError "No user message found") else
     let userText := extractMessageText lastUserMessage in
     moeResponse <- processMOEText userText no_options ;;
     result <- read moeResponse "result" ;;
     expertUsed <- read moeResponse "expert_used" ;;
     confidence <- read moeResponse "confidence" ;;
     processingTime <- read moeResponse "processing_time" ;;
     ret (JObj [("result", result); ("expertUsed", expertUsed);
                ("confidence", confidence); ("processingTime", processingTime);
                ("usedFallback", JBool false)]))
    (fun _ => ret fallback_result).

(** ** The MOE language-model middlewares of [myProvider]
    (lib/ai/providers.ts, lines 52-97): ['moe-expert-byt5'] passes
    [{ expertModel: 'byt5' }], ['moe-expert-longformer'] passes
    [{ expertModel: 'longformer' }], ['moe-auto'] passes no options. *)

Definition expert_options (expertModel : option string) : JSVal :=
  match expertModel with
  | Some e => JObj [("expertModel", JStr e)]
  | None => JObj []
  end.

Definition moe_middleware (expertModel : option string) (messages : list JSVal)
    (generate : M JSVal) : M JSVal :=
  moeResult <- processMOERequest messages (expert_options expertModel) ;;
  usedFallback <- read moeResult "usedFallback" ;;
  if negb (truthy usedFallback) then
    result <- read moeResult "result" ;; ret (JObj [("text", result)])
  else generate.


(** ** Sample data *)
Definition healthy_body : JSVal :=
  JObj [("status", JStr "healthy"); ("models_loaded", JBool true)].
Definition healthy_reply : Reply := RResponse true 200%Z (Some healthy_body).
Definition user_msg (text : string) : JSVal :=
  JObj [("role", JStr "user"); ("content", JStr text)].
Definition sample_response : JSVal :=
  JObj [("result", JStr "ok"); ("expert_used", JStr "longformer");
        ("confidence", JNum (9 # 10)); ("processing_time", JNum 1)].

(** ** Concurrent callers of checkMOEAvailability

    Each caller runs [checkMOEAvailability] up to its [await fetch(...)],
    which sends the probe, and resumes when its reply arrives.  The function
    keeps no state between calls: the only shared resource is the network,
    recorded as the list of probes sent. *)

Inductive Caller := Idle | Probing | Answered (v : JSVal).

(** The value a caller resolves to once the reply [r] to its probe arrives. *)
Definition reply_verdict (r : Reply) : JSVal :=
  match snd (checkMOEAvailability (mkWorld [] [r])) with
  | inr v => v
  | inl _ => JBool false
  end.

Fixpoint set_nth {A} (i : nat) (x : A) (xs : list A) : list A :=
  match xs, i with
  | [], _ => []
  | _ :: rest, O => x :: rest
  | y :: rest, S j => y :: set_nth j x rest
  end.

Definition Pool : Type := (list Request * list Caller)%type.

Inductive pool_step : Pool -> Pool -> Prop :=
| step_probe : forall log cs i,
    nth_error cs i = Some Idle ->
    pool_step (log, cs) (app log [health_request], set_nth i Probing cs)
| step_reply : forall log cs i r,
    nth_error cs i = Some Probing ->
    pool_step (log, cs) (log, set_nth i (Answered (reply_verdict r)) cs).

Definition pool_steps : Pool -> Pool -> Prop := clos_refl_trans_1n Pool pool_step.

Definition answered (c : Caller) : bool :=
  match c with Answered _ => true | _ => false end.

(** Callers that have sent their probe. *)
Definition started (c : Caller) : nat :=
  match c with Idle => 0 | _ => 1 end.

Definition started_count (cs : list Caller) : nat :=
  fold_right (fun c n => started c + n)%nat 0%nat cs.

(** The [content] property of a message as JavaScript reads it:
    [undefined] unless the message is an object that has one. *)
Definition content_of (message : JSVal) : JSVal :=
  match message with
  | JObj fs => match lookup_field "content" fs with Some c => c | None => JUndefined end
  | _ => JUndefined
  end.

(** The body of an ok health response that makes the check resolve to a truthy value. *)
Definition affirmative_health_body (b : JSVal) : bool :=
  match get_prop b "status", get_prop b "models_loaded" with
  | Some st, Some ml => strict_eq_str st "healthy" && truthy ml
  | _, _ => false
  end.

(** Requests to the processing endpoint. *)
Definition process_calls (rs : list Request) : nat :=
  length (filter (fun r => String.eqb (req_url r) process_url) rs).

(** A reply that does not hand [processMOEText] a JSON body. *)
Definition reply_failed (r : Reply) : bool :=
  match r with
  | RResponse true _ (Some _) => false
  | _ => true
  end.

(** Case analysis on the innermost [match]es left in the goal. *)
Ltac split_matches :=
  repeat (cbn in *; match goal with
                    | |- context [match ?x with _ => _ end] =>
                        lazymatch x with
                        | context [match _ with _ => _ end] => fail
                        | _ => let E := fresh "E" in destruct x eqn:E
                        end
                    end).

(** The result of [messages.filter((m) => m.role === 'user')] when no
    entry is [null] or [undefined]. *)
Definition user_messages (messages : list JSVal) : list JSVal :=
  filter (fun m => match get_prop m "role" with
                   | Some r => strict_eq_str r "user"
                   | None => false
                   end) messages.

(** An entry whose [role] can be read: neither [null] nor [undefined]. *)
Definition role_readable (m : JSVal) : Prop := get_prop m "role" <> None.

(** ** The chat route (app/(chat)/api/chat/route.ts) *)

(** A value thrown inside a route handler: an [Error] instance, with its
    message, or any other value. *)
Inductive Thrown :=
| ThrownError (msg : string)
| ThrownValue (v : JSVal).

(** [s.startsWith(p)] and [s.includes(sub)] on the bytes of the strings.
    The needles the route searches for are ASCII, for which a byte search
    agrees with the UTF-16 search of JavaScript. *)
Fixpoint startsWith (s p : string) : bool :=
  match p, s with
  | EmptyString, _ => true
  | String c p', String d s' => Ascii.eqb c d && startsWith s' p'
  | String _ _, EmptyString => false
  end.

Fixpoint includes (s sub : string) : bool :=
  startsWith s sub ||
  match s with
  | EmptyString => false
  | String _ s' => includes s' sub
  end.

(** [a === b] on the values the route compares.  Two objects or arrays
    read from different sources are different references. *)
Definition strict_eq (a b : JSVal) : bool :=
  match a, b with
  | JUndefined, JUndefined | JNull, JNull => true
  | JBool x, JBool y => Bool.eqb x y
  | JNum x, JNum y => Qeq_bool x y
  | JStr x, JStr y => String.eqb x y
  | _, _ => false
  end.

(** Optional chaining [v?.k]. *)
Definition opt_get (v : JSVal) (k : string) : JSVal :=
  match get_prop v k with
  | Some x => x
  | None => JUndefined
  end.

Definition timeout_response_text : string :=
  "Request timed out. Please try again with a shorter message.".
Definition database_response_text : string :=
  "Database connection error. Please try again later.".
Definition generic_response_text : string :=
  "An error occurred while processing your request!".
Definition quota_response_text : string :=
  "You have exceeded your maximum number of messages for the day! Please try again later.".

(** The outer [catch (error)] of [POST] (lines 210-231): status and text. *)
Definition post_catch (error : Thrown) : Z * string :=
  let errorMessage := match error with
                      | ThrownError m => m
                      | ThrownValue _ => "Unknown error"
                      end in
  let isError := match error with
                 | ThrownError _ => true
                 | ThrownValue _ => false
                 end in
  if isError && (includes errorMessage "timed out" || includes errorMessage "aborted")
  then (408%Z, timeout_response_text)
  else if includes errorMessage "database" || includes errorMessage "connection"
  then (503%Z, database_response_text)
  else (500%Z, generic_response_text).

(** Calls to the authentication and database layer, in the order made. *)
Inductive DbCall :=
| CAuth
| CMessageCount (userId : JSVal)
| CGetChat (id : string)
| CGenerateTitle
| CSaveChat (id : string) (userId : JSVal)
| CGetMessages (id : string)
| CSaveMessages (chatId : string)
| CDeleteChat (id : string).

(** What each call of the layer returns or throws. *)
Record Backend := mkBackend {
  be_auth : Thrown + JSVal;                (* auth() *)
  be_message_count : Thrown + Q;           (* getMessageCountByUserId *)
  be_max_messages : JSVal -> option Q;     (* entitlementsByUserType[type].maxMessagesPerDay,
                                              None when the type has no entry *)
  be_chat : Thrown + JSVal;                (* getChatById *)
  be_title : Thrown + JSVal;               (* generateTitleFromUserMessage *)
  be_save_chat : Thrown + unit;            (* saveChat *)
  be_messages : Thrown + JSVal;            (* getMessagesByChatId *)
  be_save_messages : Thrown + unit;        (* saveMessages *)
  be_delete : Thrown + JSVal               (* deleteChatById *)
}.

(** A route handler: the outbound HTTP world and the log of calls to the
    layer, with thrown values as errors. *)
Record RState := mkRState { rs_world : World; rs_log : list DbCall }.

Definition Route (A : Type) : Type := RState -> RState * (Thrown + A).

Definition rret {A} (a : A) : Route A := fun s => (s, inr a).
Definition rthrow {A} (t : Thrown) : Route A := fun s => (s, inl t).
Definition rbind {A B} (m : Route A) (k : A -> Route B) : Route B :=
  fun s => match m s with
           | (s', inl t) => (s', inl t)
           | (s', inr a) => k a s'
           end.
Definition rcatch {A} (m : Route A) (h : Thrown -> Route A) : Route A :=
  fun s => match m s with
           | (s', inl t) => h t s'
           | (s', inr a) => (s', inr a)
           end.

Notation "x <-- c1 ;;; c2" := (rbind c1 (fun x => c2))
  (at level 61, c1 at next level, right associativity).

Definition call {A} (c : DbCall) (r : Thrown + A) : Route A :=
  fun s => (mkRState (rs_world s) (app (rs_log s) [c]), r).

Definition type_error : Thrown :=
  ThrownError "Cannot read properties of undefined".

Definition rread (v : JSVal) (k : string) : Route JSVal :=
  match get_prop v k with
  | Some x => rret x
  | None => rthrow type_error
  end.

(** [try { moeAvailable = await checkMOEAvailability() } catch {}]
    (lines 108-121): on a rejection [moeAvailable] keeps [false]. *)
Definition route_check_moe : Route JSVal :=
  fun s => match checkMOEAvailability (rs_world s) with
           | (w', inr v) => (mkRState w' (rs_log s), inr v)
           | (w', inl _) => (mkRState w' (rs_log s), inr (JBool false))
           end.

(** [experimental_activeTools] (lines 130-138). *)
Definition active_tools (selectedChatModel : string) (isMOEModel : bool) : list string :=
  if String.eqb selectedChatModel "chat-model-reasoning" || isMOEModel then []
  else ["getWeather"; "createDocument"; "updateDocument"; "requestSuggestions"].

(** The fields of the parsed request body that the handler uses. *)
Record PostBody := mkPostBody {
  pb_id : string;
  pb_message : JSVal;
  pb_selectedChatModel : string
}.

(** A plain response, or the data stream with the values its [execute]
    and [onError] callbacks capture. *)
Inductive PostOutcome :=
| PostResponse (status : Z) (text : string)
| PostStream (isMOEModel : bool) (moeAvailable : JSVal) (activeTools : list string).

(** [POST] ([route_POST]; [POST] names the HTTP method) up to the creation of the data stream (lines 33-233); [None]
    stands for a body that fails to parse or validate. *)
Definition route_POST (body : option PostBody) (be : Backend) : Route PostOutcome :=
  match body with
  | None => rret (PostResponse 400%Z "Invalid request body")
  | Some (mkPostBody id message selectedChatModel) =>
    rcatch
      (session <-- call CAuth (be_auth be) ;;;
       let user := opt_get session "user" in
       if negb (truthy user) then rret (PostResponse 401%Z "Unauthorized") else
       userType <-- rread user "type" ;;;
       userId <-- rread user "id" ;;;
       messageCount <-- call (CMessageCount userId) (be_message_count be) ;;;
       maxMessagesPerDay <-- match be_max_messages be userType with
                             | Some m => rret m
                             | None => rthrow type_error
                             end ;;;
       (* messageCount > maxMessagesPerDay *)
       if negb (Qle_bool messageCount maxMessagesPerDay)
       then rret (PostResponse 429%Z quota_response_text) else
       chat <-- call (CGetChat id) (be_chat be) ;;;
       allowed <-- (if negb (truthy chat) then
                      title <-- call CGenerateTitle (be_title be) ;;;
                      _ <-- call (CSaveChat id userId) (be_save_chat be) ;;;
                      rret true
                    else
                      owner <-- rread chat "userId" ;;;
                      rret (strict_eq owner userId)) ;;;
       if negb allowed then rret (PostResponse 403%Z "Forbidden") else
       previousMessages <-- call (CGetMessages id) (be_messages be) ;;;
       _ <-- call (CSaveMessages id) (be_save_messages be) ;;;
       let isMOEModel := startsWith selectedChatModel "moe-" in
       moeAvailable <-- (if isMOEModel then route_check_moe else rret (JBool false)) ;;;
       rret (PostStream isMOEModel moeAvailable (active_tools selectedChatModel isMOEModel)))
      (fun error => let r := post_catch error in rret (PostResponse (fst r) (snd r)))
  end.

Definition stream_timeout_text : string :=
  "The request timed out. Please try again with a shorter message or try later.".
Definition moe_unavailable_text : string :=
  "The MOE service is currently unavailable. Your message has been processed using a fallback model instead.".
Definition stream_error_text : string :=
  "Oops, an error occurred while processing your request!".

(** [m?.includes(needle)] as a condition; [None] when the call throws
    (a value with no [includes] method). *)
Definition message_includes (m : JSVal) (needle : string) : option bool :=
  match m with
  | JUndefined | JNull => Some false
  | JStr s => Some (includes s needle)
  | JArr xs => Some (existsb (fun x => strict_eq_str x needle) xs)
  | _ => None
  end.

(** The [onError] callback of the data stream (lines 198-208); [None]
    when it throws. *)
Definition onError (error : JSVal) (isMOEModel : bool) (moeAvailable : JSVal) : option string :=
  match get_prop error "name" with
  | None => None
  | Some name =>
    match (if strict_eq_str name "AbortError" then Some true
           else match get_prop error "message" with
                | None => None
                | Some m => message_includes m "timed out"
                end) with
    | None => None
    | Some true => Some stream_timeout_text
    | Some false =>
      if isMOEModel && negb (truthy moeAvailable) then Some moe_unavailable_text
      else Some stream_error_text
    end
  end.

(** [DELETE] (lines 235-264); [id] is [searchParams.get('id')], a string
    or [null].  The result is the status and the JSON or text body; an
    error outside the [try] block is left unhandled. *)
Definition route_DELETE (id : option string) (be : Backend) : Route (Z * JSVal) :=
  match id with
  | None => rret (404%Z, JStr "Not Found")
  | Some idv =>
    if negb (truthy (JStr idv)) then rret (404%Z, JStr "Not Found") else
    session <-- call CAuth (be_auth be) ;;;
    let userId := opt_get (opt_get session "user") "id" in
    if negb (truthy userId) then rret (401%Z, JStr "Unauthorized") else
    rcatch
      (chat <-- call (CGetChat idv) (be_chat be) ;;;
       owner <-- rread chat "userId" ;;;
       if negb (strict_eq owner userId) then rret (403%Z, JStr "Forbidden") else
       deletedChat <-- call (CDeleteChat idv) (be_delete be) ;;;
       rret (200%Z, deletedChat))
      (fun _ => rret (500%Z, JStr generic_response_text))
  end.

Ltac route_unfold :=
  cbv beta iota zeta delta [route_POST route_DELETE rcatch rbind call rread rret rthrow
                            route_check_moe rs_world rs_log].

(** ** The deployment script (scripts/deploy-vercel.js) *)

(** The script handles the text of [.env.local]: text is modelled as its
    UTF-8 bytes.  [String.prototype.trim] is left as a parameter [trim]
    of the functions that use it; the properties below hold whatever
    [trim] does. *)
Module DeployScript.

Local Open Scope list_scope.

Definition str : Type := list ascii.

Definition lit (x : string) : str := list_ascii_of_string x.

Definition LF : ascii := "010"%char.
Definition CR : ascii := "013"%char.

Definition str_eqb (a b : str) : bool :=
  if list_eq_dec ascii_dec a b then true else false.

(** [s.startsWith(p)] and [s.includes(p)]. *)
Fixpoint starts_with (s p : str) : bool :=
  match p, s with
  | [], _ => true
  | c :: p', d :: s' => Ascii.eqb c d && starts_with s' p'
  | _ :: _, [] => false
  end.

Fixpoint includes (s p : str) : bool :=
  starts_with s p ||
  match s with
  | [] => false
  | _ :: s' => includes s' p
  end.

(** The line terminators, which the regular-expression atom [.] does not
    match: LF, CR, and U+2028 and U+2029 (bytes E2 80 A8 and E2 80 A9). *)
Definition at_terminator (s : str) : bool :=
  starts_with s [LF] || starts_with s [CR] ||
  starts_with s ["226"%char; "128"%char; "168"%char] ||
  starts_with s ["226"%char; "128"%char; "169"%char].

(** The longest prefix matched by [.*]. *)
Fixpoint take_line (s : str) : str :=
  match s with
  | [] => []
  | c :: s' => if at_terminator s then [] else c :: take_line s'
  end.

Definition MOE_KEY : str := lit "MOE_API_URL=".

(** One attempt of [/MOE_API_URL=(.+)/] at the start of [s]: the greedy
    capture and the text after the match. *)
Definition moe_match_here (s : str) : option (str * str) :=
  if starts_with s MOE_KEY then
    let rest := skipn (length MOE_KEY) s in
    match take_line rest with
    | [] => None
    | v => Some (v, skipn (length v) rest)
    end
  else None.

(** The leftmost match: text before it, capture, text after it. *)
Fixpoint moe_exec (s : str) : option (str * str * str) :=
  match moe_match_here s with
  | Some (v, a) => Some ([], v, a)
  | None =>
    match s with
    | [] => None
    | c :: s' =>
      match moe_exec s' with
      | Some (b, v, a) => Some (c :: b, v, a)
      | None => None
      end
    end
  end.

(** [envContent.match(/MOE_API_URL=(.+)/)?.[1]] *)
Definition moe_match (s : str) : option str :=
  match moe_exec s with
  | Some (_, v, _) => Some v
  | None => None
  end.

(** The replacement patterns of [String.prototype.replace] with a string
    replacement and a regular expression without capture groups:
    [$$], [$&], [$`] and [$'']. *)
Fixpoint get_substitution (template matched before after : str) : str :=
  match template with
  | [] => []
  | c :: t =>
    if Ascii.eqb c "$"%char then
      match t with
      | d :: t' =>
        if Ascii.eqb d "$"%char then "$"%char :: get_substitution t' matched before after
        else if Ascii.eqb d "&"%char then matched ++ get_substitution t' matched before after
        else if Ascii.eqb d "`"%char then before ++ get_substitution t' matched before after
        else if Ascii.eqb d "'"%char then after ++ get_substitution t' matched before after
        else c :: get_substitution t matched before after
      | [] => [c]
      end
    else c :: get_substitution t matched before after
  end.

(** [s.replace(/MOE_API_URL=.+/, replacement)]: the first match only. *)
Definition moe_replace (s replacement : str) : str :=
  match moe_exec s with
  | None => s
  | Some (b, v, a) => b ++ get_substitution replacement (MOE_KEY ++ v) b a ++ a
  end.

(** [s.split(sep)] with a one-character separator, and [parts.join(sep)]. *)
Fixpoint split_on (sep : ascii) (s : str) : list str :=
  match s with
  | [] => [[]]
  | c :: s' =>
    let parts := split_on sep s' in
    if Ascii.eqb c sep then [] :: parts
    else match parts with
         | p :: ps => (c :: p) :: ps
         | [] => [[c]]
         end
  end.

Fixpoint join_on (sep : ascii) (parts : list str) : str :=
  match parts with
  | [] => []
  | [p] => p
  | p :: ps => p ++ sep :: join_on sep ps
  end.

(** A text with no line terminator byte: no LF, CR or E2. *)
Definition clean (u : str) : Prop :=
  forall c, In c u -> c <> LF /\ c <> CR /\ c <> "226"%char.

Section WithTrim.

Variable trim : str -> str.

(** The body of the [forEach] of [createVercelEnvFile] (lines 111-120):
    the key and value a line contributes, if any. *)
Definition parse_line (line : str) : option (str * str) :=
  if negb (str_eqb (trim line) []) && negb (starts_with line (lit "#")) then
    let parts := split_on "="%char line in
    if Nat.leb 2 (length parts)
    then Some (trim (hd [] parts), trim (join_on "="%char (tl parts)))
    else None
  else None.

(** [envVars[key] = value] on a plain object: an existing key keeps its
    place and takes the new value; [__proto__] is the prototype setter,
    which ignores a string. *)
Definition set_env (m : list (str * str)) (k v : str) : list (str * str) :=
  if str_eqb k (lit "__proto__") then m
  else if existsb (fun kv => str_eqb (fst kv) k) m
  then map (fun kv => if str_eqb (fst kv) k then (k, v) else kv) m
  else m ++ [(k, v)].

(** [envVars] as built by [createVercelEnvFile] from [.env.local]. *)
Definition env_vars (envContent : str) : list (str * str) :=
  fold_left (fun m line => match parse_line line with
                           | Some (k, v) => set_env m k v
                           | None => m
                           end)
            (split_on LF envContent) [].

(** [checkMoeApiUrl] (lines 208-259).  [file] is the content of
    [.env.local] ([None] when it cannot be read) and [answer] the line
    typed at the prompt.  The result is the returned URL and the content
    written back to [.env.local], if any. *)
Definition checkMoeApiUrl (file : option str) (answer : str) : str * option str :=
  let moeApiUrl := match file with
                   | Some envContent => match moe_match envContent with
                                        | Some v => v
                                        | None => []
                                        end
                   | None => []
                   end in
  if negb (str_eqb moeApiUrl []) then (moeApiUrl, None) else
  let moeApiUrl := trim answer in
  let envContent := match file with Some c => c | None => [] end in
  let envContent :=
    if includes envContent MOE_KEY
    then moe_replace envContent (MOE_KEY ++ moeApiUrl)
    else envContent ++ LF :: MOE_KEY ++ moeApiUrl in
  (moeApiUrl, Some envContent).

End WithTrim.

(** Reading a key of [envVars]. *)
Definition lookup_env (m : list (str * str)) (k : str) : option str :=
  match find (fun kv => str_eqb (fst kv) k) m with
  | Some (_, v) => Some v
  | None => None
  end.

(** The value of the last binding of [k] in a list of bindings. *)
Definition last_binding (k : str) (kvs : list (str * str)) : option str :=
  fold_left (fun acc kv => if str_eqb (fst kv) k then Some (snd kv) else acc) kvs None.

End DeployScript.

(** ** Properties *)

Example run_ok :
  processMOERequest [user_msg "hello"] (JObj [])
    (mkWorld [] [healthy_reply; RResponse true 200%Z (Some sample_response)])
  = (mkWorld [health_request; process_request "hello" "process" (JObj [])] [],
     inr (JObj [("result", JStr "ok"); ("expertUsed", JStr "longformer");
                ("confidence", JNum (9 # 10)); ("processingTime", JNum 1);
                ("usedFallback", JBool false)])).
Proof. reflexivity. Qed.

Example run_down :
  processMOERequest [user_msg "hello"] (JObj []) (mkWorld [] [RAbort])
  = (mkWorld [health_request] [], inr fallback_result).
Proof. reflexivity. Qed.

Lemma extractMessageText_content (message : JSVal) :
  extractMessageText message =
  match content_of message with
  | JStr s => s
  | JArr parts => join " " (string_parts parts)
  | _ => ""
  end.
Proof.
  unfold extractMessageText, content_of.
  destruct message as [| | b | q | | s | xs | fs]; cbn;
    try (destruct b); try (destruct (negb (Qeq_bool q 0)));
    try (destruct (negb (String.eqb s ""))); try reflexivity.
  destruct (lookup_field "content" fs) as [c|]; cbn; [|reflexivity].
  destruct c as [| | b | q | | s | xs | fs']; cbn; try reflexivity.
  - destruct b; reflexivity.
  - destruct (negb (Qeq_bool q 0)); reflexivity.
  - destruct (String.eqb s "") eqn:E; cbn; [|reflexivity].
    apply String.eqb_eq in E; subst; reflexivity.
Qed.

(** C10: [extractMessageText] returns a string for every input: [""] for
    [null]/[undefined], for a message without [content], and for content that
    is neither a string nor an array; the string content unchanged; for array
    content, the string elements joined by single spaces (other parts
    dropped), so an array of object parts gives [""]. *)
Theorem extractMessageText_total_spec :
  (forall m, m = JUndefined \/ m = JNull -> extractMessageText m = "") /\
  (forall m, content_of m = JUndefined -> extractMessageText m = "") /\
  (forall m s, content_of m = JStr s -> extractMessageText m = s) /\
  (forall m parts, content_of m = JArr parts ->
     extractMessageText m = join " " (string_parts parts)) /\
  (forall m, (forall s, content_of m <> JStr s) ->
     (forall parts, content_of m <> JArr parts) -> extractMessageText m = "") /\
  (forall m objs, content_of m = JArr (map JObj objs) -> extractMessageText m = "").
Proof.
  repeat split.
  - intros m [-> | ->]; reflexivity.
  - intros m H; rewrite extractMessageText_content, H; reflexivity.
  - intros m s H; rewrite extractMessageText_content, H; reflexivity.
  - intros m parts H; rewrite extractMessageText_content, H; reflexivity.
  - intros m Hs Ha; rewrite extractMessageText_content.
    destruct (content_of m); try reflexivity.
    + exfalso; eapply Hs; reflexivity.
    + exfalso; eapply Ha; reflexivity.
  - intros m objs H; rewrite extractMessageText_content, H.
    assert (Hp : string_parts (map JObj objs) = [])
      by (clear H; induction objs as [|o objs IH]; cbn; [reflexivity | exact IH]).
    rewrite Hp; reflexivity.
Qed.

Lemma extractMessageText_total_spec_witness :
  extractMessageText (JObj [("role", JStr "user");
                            ("content", JArr [JStr "a"; JObj []; JStr "b"])]) = "a b" /\
  extractMessageText (JObj [("content", JArr [JObj [("type", JStr "image")]])]) = "".
Proof.
  destruct extractMessageText_total_spec as (_ & _ & _ & Harr & _ & Hobj).
  split.
  - apply (Harr _ [JStr "a"; JObj []; JStr "b"]); reflexivity.
  - apply (Hobj _ [[("type", JStr "image")]]); reflexivity.
Defined.

(** The health check issues exactly one request and consumes one reply. *)
Lemma checkMOEAvailability_world (w : World) :
  fst (checkMOEAvailability w) = mkWorld (app (sent w) [health_request]) (tl (replies w)).
Proof.
  destruct w as [s rs]; destruct rs as [|r rs]; [reflexivity|].
  unfold checkMOEAvailability, try_catch, bind, fetch, json, read, ret, throw.
  split_matches; reflexivity.
Qed.

(** The health check never rejects. *)
Lemma checkMOEAvailability_resolves (w : World) :
  exists v, snd (checkMOEAvailability w) = inr v.
Proof.
  destruct w as [s rs]; destruct rs as [|r rs]; [eexists; reflexivity|].
  unfold checkMOEAvailability, try_catch, bind, fetch, json, read, ret, throw.
  split_matches; eexists; reflexivity.
Qed.

Lemma strict_eq_str_true (v : JSVal) (s : string) :
  strict_eq_str v s = true -> v = JStr s.
Proof.
  destruct v; cbn; try discriminate.
  intros E; apply String.eqb_eq in E; subst; reflexivity.
Qed.

(** The health check resolves to [true] exactly when the probe gets an ok
    response whose JSON body has [status === 'healthy'] and
    [models_loaded === true]. *)
Lemma checkMOEAvailability_true_iff (w : World) :
  snd (checkMOEAvailability w) = inr (JBool true) <->
  exists st b rest, replies w = RResponse true st (Some b) :: rest /\
    get_prop b "status" = Some (JStr "healthy") /\
    get_prop b "models_loaded" = Some (JBool true).
Proof.
  destruct w as [s rs]; cbn [replies].
  split.
  - destruct rs as [|r rs]; [discriminate|].
    unfold checkMOEAvailability, try_catch, bind, fetch, json, read, ret, throw.
    split_matches; intros H; try discriminate.
    inversion H; subst.
    match goal with Hq : strict_eq_str _ _ = true |- _ =>
      apply strict_eq_str_true in Hq; subst end.
    destruct ok; [|discriminate].
    eauto 7.
  - intros (st & b & rest & -> & Hs & Hm).
    unfold checkMOEAvailability, try_catch, bind, fetch, json, read, ret, throw.
    cbn; rewrite Hs; cbn; rewrite Hm; reflexivity.
Qed.

(** C6 (failing input): with an ok response whose body is
    [{"status": "healthy"}] the health check resolves to [undefined], and with
    [{"status": "healthy", "models_loaded": 0}] to [0]: the result of
    [data.status === 'healthy' && data.models_loaded] is [data.models_loaded]
    itself, not the boolean [false] the declared [Promise<boolean>] and the
    doc comment promise. *)
Theorem checkMOEAvailability_non_boolean :
  checkMOEAvailability
    (mkWorld [] [RResponse true 200%Z (Some (JObj [("status", JStr "healthy")]))])
  = (mkWorld [health_request] [], inr JUndefined) /\
  checkMOEAvailability
    (mkWorld [] [RResponse true 200%Z
                  (Some (JObj [("status", JStr "healthy"); ("models_loaded", JNum 0)]))])
  = (mkWorld [health_request] [], inr (JNum 0)).
Proof. split; reflexivity. Qed.

(** C7 (counterexample): there is no cache of health verdicts: right after
    a call that found the service healthy, a second call probes again. *)
Lemma health_cache_counterexample :
  ~ (forall w w1 v, checkMOEAvailability w = (w1, inr v) -> truthy v = true ->
       sent (fst (checkMOEAvailability w1)) = sent w1).
Proof.
  intros H.
  specialize (H (mkWorld [] [healthy_reply; healthy_reply])
                (mkWorld [health_request] [healthy_reply]) (JBool true)
                eq_refl eq_refl).
  discriminate H.
Qed.

Lemma is_user_message_world (m : JSVal) (w : World) :
  fst (is_user_message m w) = w.
Proof.
  unfold is_user_message, bind, read, ret, throw.
  destruct (get_prop m "role"); reflexivity.
Qed.

Lemma filterM_world (xs : list JSVal) (w : World) :
  fst (filterM is_user_message xs w) = w.
Proof.
  revert w; induction xs as [|x xs IH]; intros w; [reflexivity|].
  cbn [filterM]; unfold bind at 1.
  pose proof (is_user_message_world x w) as Hx.
  destruct (is_user_message x w) as [w1 [e|b]]; cbn in Hx; subst w1; [reflexivity|].
  unfold bind, ret.
  specialize (IH w).
  destruct (filterM is_user_message xs w) as [w' [e|ys]]; cbn in *; subst; reflexivity.
Qed.

Lemma processMOEText_world (text : string) (w : World) :
  fst (processMOEText text no_options w) =
  mkWorld (app (sent w) [process_request text "process" (JObj [])]) (tl (replies w)).
Proof.
  destruct w as [s rs]; destruct rs as [|r rs]; [reflexivity|].
  unfold processMOEText, try_catch, bind, fetch, json, ret, throw.
  split_matches; reflexivity.
Qed.

Lemma processMOEText_success (text : string) (w : World) (v : JSVal) :
  snd (processMOEText text no_options w) = inr v ->
  exists st b rest, replies w = RResponse true st (Some b) :: rest.
Proof.
  destruct w as [s rs]; cbn [replies].
  destruct rs as [|r rs]; [discriminate|].
  unfold processMOEText, try_catch, bind, fetch, json, ret, throw.
  split_matches; intros H; try discriminate.
  destruct ok; [eauto | discriminate].
Qed.

Lemma checkMOEAvailability_truthy (w : World) (v : JSVal) :
  snd (checkMOEAvailability w) = inr v -> truthy v = true ->
  exists st b rest, replies w = RResponse true st (Some b) :: rest /\
    affirmative_health_body b = true.
Proof.
  destruct w as [s rs]; cbn [replies].
  destruct rs as [|r rs]; [intros H; inversion H; subst; discriminate|].
  unfold checkMOEAvailability, try_catch, bind, fetch, json, read, ret, throw.
  split_matches; intros H Ht; inversion H; subst; try discriminate.
  destruct ok; [|discriminate].
  do 3 eexists; split; [reflexivity|].
  unfold affirmative_health_body.
  repeat match goal with Hq : get_prop _ _ = Some _ |- _ => rewrite Hq; clear Hq end.
  apply andb_true_intro; split; assumption.
Qed.

Lemma processMOERequest_cases (messages : list JSVal) (options : JSVal) (w : World) :
  processMOERequest messages options w =
    (mkWorld (app (sent w) [health_request]) (tl (replies w)), inr fallback_result)
  \/ exists text r,
    processMOERequest messages options w =
      (mkWorld (app (sent w) [health_request; process_request text "process" (JObj [])])
               (tl (tl (replies w))), inr r) /\
    (r = fallback_result \/
     exists st1 b1 st2 b2 rest,
       replies w = RResponse true st1 (Some b1) :: RResponse true st2 (Some b2) :: rest /\
       affirmative_health_body b1 = true /\
       get_prop r "usedFallback" = Some (JBool false)).
Proof.
  destruct (processMOERequest messages options w) as [w' res] eqn:HP.
  unfold processMOERequest, try_catch in HP.
  unfold bind at 1 in HP.
  pose proof (checkMOEAvailability_world w) as Hw.
  pose proof (checkMOEAvailability_truthy w) as Ht.
  destruct (checkMOEAvailability w) as [w1 [e|v]] eqn:Hc.
  { destruct (checkMOEAvailability_resolves w) as [v Hv]; rewrite Hc in Hv; discriminate. }
  cbn in Hw; subst w1.
  specialize (Ht v eq_refl).
  destruct (truthy v) eqn:Htv; cbn in HP;
    [|inversion HP; subst; left; reflexivity].
  destruct (Ht eq_refl) as (st1 & b1 & rest1 & Hr1 & Hb1).
  unfold bind at 1 in HP.
  set (w1 := mkWorld (app (sent w) [health_request]) (tl (replies w))) in HP.
  pose proof (filterM_world messages w1) as Hf.
  destruct (filterM is_user_message messages w1) as [w2 [e|users]];
    cbn in Hf; subst w2; cbn in HP; [inversion HP; subst; left; reflexivity|].
  destruct (truthy (pop_last users)); cbn in HP;
    [|inversion HP; subst; left; reflexivity].
  unfold bind at 1 in HP.
  set (text := extractMessageText (pop_last users)) in HP.
  pose proof (processMOEText_world text w1) as Hp.
  pose proof (processMOEText_success text w1) as Hs.
  destruct (processMOEText text no_options w1) as [w3 [e|resp]];
    cbn in Hp; subst w3; cbn in HP.
  { inversion HP; subst; right; exists text, fallback_result.
    split; [|left; reflexivity].
    unfold w1; cbn; rewrite <- app_assoc; reflexivity. }
  destruct (Hs resp eq_refl) as (st2 & b2 & rest2 & Hr2).
  right; exists text.
  unfold read, bind, ret, throw in HP.
  destruct resp; cbn in HP; inversion HP; subst;
    (eexists; split;
     [unfold w1; cbn; rewrite <- app_assoc; reflexivity|]);
    try (left; reflexivity);
    right; unfold w1 in Hr2; cbn in Hr2; rewrite Hr1 in Hr2 |- *; cbn in Hr2;
    rewrite Hr2; do 5 eexists; repeat split; eassumption || reflexivity.
Qed.


(** A negative health verdict ends the request with [{ usedFallback: true }]
    before any further request is sent. *)
Lemma processMOERequest_unavailable (messages : list JSVal) (options : JSVal)
    (w w1 : World) (v : JSVal) :
  checkMOEAvailability w = (w1, inr v) -> truthy v = false ->
  processMOERequest messages options w = (w1, inr fallback_result).
Proof.
  intros Hc Hv.
  unfold processMOERequest, try_catch, bind at 1.
  rewrite Hc; cbn; rewrite Hv; reflexivity.
Qed.

(** C1: for all messages, options and replies, [processMOERequest]
    resolves (never rejects) to an object whose [usedFallback] is [true],
    unless the health probe got an ok, affirmative response and the
    processing call an ok JSON response, in which case [usedFallback] is
    [false]: every health-check failure, timeout, transport error or error
    response of the expert gives [usedFallback: true]. *)
Theorem processMOERequest_never_rejects (messages : list JSVal) (options : JSVal)
    (w : World) :
  exists w' r, processMOERequest messages options w = (w', inr r) /\
    (get_prop r "usedFallback" = Some (JBool true) \/
     (get_prop r "usedFallback" = Some (JBool false) /\
      exists st1 b1 st2 b2 rest,
        replies w = RResponse true st1 (Some b1) :: RResponse true st2 (Some b2) :: rest /\
        affirmative_health_body b1 = true)).
Proof.
  destruct (processMOERequest_cases messages options w)
    as [-> | (text & r & -> & [-> | (st1 & b1 & st2 & b2 & rest & Hr & Hb & Hu)])].
  - do 2 eexists; split; [reflexivity | left; reflexivity].
  - do 2 eexists; split; [reflexivity | left; reflexivity].
  - do 2 eexists; split; [reflexivity|].
    right; split; [exact Hu|]; eauto 8.
Qed.




(** C3 (failing input): the ['moe-expert-byt5'] middleware passes
    [{ expertModel: 'byt5' }], but the request sent to the processing
    endpoint is [{ text: "hello", task: "process", options: {} }], the
    same as for ['moe-auto']: the expert choice never reaches the service,
    which answers here with its own choice ["longformer"]. *)
Theorem byt5_option_not_forwarded :
  moe_middleware (Some "byt5") [user_msg "hello"] (ret JUndefined)
    (mkWorld [] [healthy_reply; RResponse true 200%Z (Some sample_response)])
  = (mkWorld [health_request; process_request "hello" "process" (JObj [])] [],
     inr (JObj [("text", JStr "ok")])) /\
  moe_middleware (Some "byt5") [user_msg "hello"] (ret JUndefined)
    (mkWorld [] [healthy_reply; RResponse true 200%Z (Some sample_response)])
  = moe_middleware None [user_msg "hello"] (ret JUndefined)
    (mkWorld [] [healthy_reply; RResponse true 200%Z (Some sample_response)]).
Proof. split; reflexivity. Qed.

(** C4 (counterexample): when the health check is negative the result is
    [{ usedFallback: true }] only; it has no [expertUsed: "fallback"] and
    no [confidence: 0]. *)
Lemma fallback_fields_counterexample :
  ~ (forall messages options w w1 v,
       checkMOEAvailability w = (w1, inr v) -> truthy v = false ->
       exists w' r, processMOERequest messages options w = (w', inr r) /\
         get_prop r "usedFallback" = Some (JBool true) /\
         get_prop r "expertUsed" = Some (JStr "fallback") /\
         get_prop r "confidence" = Some (JNum 0)).
Proof.
  intros H.
  destruct (H [user_msg "hi"] (JObj []) (mkWorld [] [RAbort])
              (mkWorld [health_request] []) (JBool false) eq_refl eq_refl)
    as (w' & r & Hr & _ & He & _).
  cbn in Hr; inversion Hr; subst; discriminate He.
Qed.

(** C4 (amended): when the health check is negative, and whenever the
    result has [usedFallback: true], [processMOERequest] resolves to exactly
    [{ usedFallback: true }]: [expertUsed], [confidence] and [error] are
    undefined, the error is not recorded in the result. *)
Theorem fallback_result_shape :
  (forall messages options w w1 v,
     checkMOEAvailability w = (w1, inr v) -> truthy v = false ->
     processMOERequest messages options w = (w1, inr fallback_result)) /\
  (forall messages options w w' r,
     processMOERequest messages options w = (w', inr r) ->
     get_prop r "usedFallback" = Some (JBool true) -> r = fallback_result) /\
  get_prop fallback_result "usedFallback" = Some (JBool true) /\
  get_prop fallback_result "expertUsed" = Some JUndefined /\
  get_prop fallback_result "confidence" = Some JUndefined /\
  get_prop fallback_result "error" = Some JUndefined.
Proof.
  split; [exact processMOERequest_unavailable|].
  split; [|repeat split].
  intros messages options w w' r Hp Hu.
  destruct (processMOERequest_cases messages options w)
    as [He | (text & r' & He & [Hr | (st1 & b1 & st2 & b2 & rest & _ & _ & Hf)])];
    rewrite Hp in He; inversion He; subst; try reflexivity.
  rewrite Hu in Hf; discriminate.
Qed.

Lemma fallback_result_shape_witness :
  processMOERequest [user_msg "hi"] (JObj []) (mkWorld [] [RAbort])
  = (mkWorld [health_request] [], inr fallback_result) /\
  get_prop fallback_result "expertUsed" = Some JUndefined.
Proof.
  destruct fallback_result_shape as (Hneg & _ & _ & He & _).
  split; [|exact He].
  apply (Hneg _ _ _ _ (JBool false)); reflexivity.
Defined.

(** C5: when the health check reports the service unusable,
    [processMOERequest] sends no request after the probe (so
    [processMOEText] is not called) and resolves to [usedFallback: true]. *)
Theorem unavailable_no_process_call (messages : list JSVal) (options : JSVal)
    (w w1 : World) (v : JSVal) :
  checkMOEAvailability w = (w1, inr v) -> truthy v = false ->
  sent (fst (processMOERequest messages options w)) = app (sent w) [health_request] /\
  process_calls (sent (fst (processMOERequest messages options w))) = process_calls (sent w) /\
  snd (processMOERequest messages options w) = inr fallback_result.
Proof.
  intros Hc Hv.
  pose proof (checkMOEAvailability_world w) as Hw; rewrite Hc in Hw; cbn in Hw.
  rewrite (processMOERequest_unavailable messages options w w1 v Hc Hv), Hw; cbn.
  repeat split.
  unfold process_calls; rewrite filter_app, length_app; cbn; lia.
Qed.

Lemma unavailable_no_process_call_witness :
  checkMOEAvailability (mkWorld [] [RResponse false 503%Z None])
  = (mkWorld [health_request] [], inr (JBool false)) /\
  sent (fst (processMOERequest [user_msg "hi"] (JObj [])
               (mkWorld [] [RResponse false 503%Z None])))
  = app [] [health_request] /\
  process_calls (sent (fst (processMOERequest [user_msg "hi"] (JObj [])
               (mkWorld [] [RResponse false 503%Z None])))) = process_calls [] /\
  snd (processMOERequest [user_msg "hi"] (JObj []) (mkWorld [] [RResponse false 503%Z None]))
  = inr fallback_result.
Proof.
  split; [reflexivity|].
  apply (unavailable_no_process_call _ _ (mkWorld [] [RResponse false 503%Z None])
           (mkWorld [health_request] []) (JBool false));
    reflexivity.
Defined.

(** C7 (amended): there is no health cache: every call of
    [checkMOEAvailability] sends one new [GET /health] probe, whatever earlier
    calls found, and every [processMOERequest] starts with such a probe. *)
Theorem health_probe_every_call :
  (forall w, sent (fst (checkMOEAvailability w)) = app (sent w) [health_request]) /\
  (forall messages options w, exists rest,
     sent (fst (processMOERequest messages options w)) = app (sent w) (health_request :: rest)).
Proof.
  split.
  - intros w; rewrite checkMOEAvailability_world; reflexivity.
  - intros messages options w.
    destruct (processMOERequest_cases messages options w)
      as [-> | (text & r & -> & _)]; cbn; eauto.
Qed.

(** C8: one [processMOERequest] calls the processing endpoint at most twice
    (in fact at most once: there is no retry), and once a processing call
    has failed the result is the degraded [{ usedFallback: true }]. *)
Theorem process_calls_bounded (messages : list JSVal) (options : JSVal) (w : World) :
  exists extra w' r,
    processMOERequest messages options w = (w', inr r) /\
    sent w' = app (sent w) extra /\
    (process_calls extra <= 2)%nat /\
    (forall r1 r2 rest, replies w = r1 :: r2 :: rest -> reply_failed r2 = true ->
       r = fallback_result).
Proof.
  destruct (processMOERequest_cases messages options w)
    as [-> | (text & r & -> & Hr)].
  - exists [health_request]; do 2 eexists; split; [reflexivity|].
    split; [reflexivity|]; split; [cbn; lia | reflexivity].
  - exists [health_request; process_request text "process" (JObj [])].
    do 2 eexists; split; [reflexivity|].
    split; [reflexivity|]; split; [cbn; lia|].
    intros r1 r2 rest Hw Hf.
    destruct Hr as [-> | (st1 & b1 & st2 & b2 & rest' & Hw' & _ & _)]; [reflexivity|].
    rewrite Hw in Hw'; inversion Hw'; subst; discriminate Hf.
Qed.

Lemma process_calls_bounded_witness :
  exists w' r,
    processMOERequest [user_msg "hi"] (JObj [])
      (mkWorld [] [healthy_reply; RAbort]) = (w', inr r) /\ r = fallback_result.
Proof.
  destruct (process_calls_bounded [user_msg "hi"] (JObj [])
              (mkWorld [] [healthy_reply; RAbort])) as (extra & w' & r & H & _ & _ & Hf).
  exists w', r; split; [exact H|].
  apply (Hf healthy_reply RAbort []); reflexivity.
Defined.

Lemma set_nth_started (cs : list Caller) (i : nat) (c c' : Caller) :
  nth_error cs i = Some c ->
  (started_count (set_nth i c' cs) + started c = started_count cs + started c')%nat.
Proof.
  revert i; induction cs as [|d cs IH]; intros [|i] H; cbn in *; try discriminate.
  - inversion H; subst; lia.
  - specialize (IH i H); unfold started_count in IH; lia.
Qed.

Lemma set_nth_length {A} (cs : list A) (i : nat) (x : A) :
  length (set_nth i x cs) = length cs.
Proof.
  revert i; induction cs as [|d cs IH]; intros [|i]; cbn; auto.
Qed.

(** Every caller that has started has sent exactly one probe, and nothing
    else has been sent. *)
Lemma pool_steps_invariant (p q : Pool) :
  pool_steps p q ->
  fst p = repeat health_request (started_count (snd p)) ->
  fst q = repeat health_request (started_count (snd q)) /\
  length (snd q) = length (snd p).
Proof.
  induction 1 as [p | p p' q Hs _ IH]; intros Hp; [split; auto|].
  destruct Hs as [log cs i Hi | log cs i r Hi]; cbn [fst snd] in *.
  - pose proof (set_nth_started cs i Idle Probing Hi) as Hc; cbn [started] in Hc.
    destruct IH as [IH1 IH2].
    + rewrite Hp, <- repeat_cons.
      replace (started_count (set_nth i Probing cs))
        with (S (started_count cs)) by lia; reflexivity.
    + split; [exact IH1|]; rewrite IH2, set_nth_length; reflexivity.
  - pose proof (set_nth_started cs i Probing (Answered (reply_verdict r)) Hi) as Hc;
      cbn [started] in Hc.
    destruct IH as [IH1 IH2].
    + rewrite Hp; f_equal; lia.
    + split; [exact IH1|]; rewrite IH2, set_nth_length; reflexivity.
Qed.

Lemma started_count_answered (cs : list Caller) :
  forallb answered cs = true -> started_count cs = length cs.
Proof.
  unfold started_count.
  induction cs as [|c cs IH]; cbn; [reflexivity|].
  intros H; apply andb_true_iff in H as [Hc H].
  destruct c; try discriminate; cbn; rewrite IH; auto.
Qed.

Lemma started_count_idle (n : nat) : started_count (repeat Idle n) = 0%nat.
Proof. induction n; cbn; auto. Qed.

(** Two callers, both probing before either reply arrives. *)
Lemma two_callers_run :
  pool_steps ([], repeat Idle 2)
    ([health_request; health_request],
     [Answered (reply_verdict healthy_reply); Answered (reply_verdict healthy_reply)]).
Proof.
  eapply Relation_Operators.rt1n_trans; [apply (step_probe [] [Idle; Idle] 0); reflexivity|]; cbn.
  eapply Relation_Operators.rt1n_trans; [apply (step_probe _ _ 1); reflexivity|]; cbn.
  eapply Relation_Operators.rt1n_trans; [apply (step_reply _ _ 0 healthy_reply); reflexivity|]; cbn.
  eapply Relation_Operators.rt1n_trans; [apply (step_reply _ _ 1 healthy_reply); reflexivity|]; cbn.
  apply Relation_Operators.rt1n_refl.
Qed.

(** C9 (counterexample): two concurrent callers of [checkMOEAvailability]
    that both find no fresh verdict send two probes, not one. *)
Lemma probe_coalescing_counterexample :
  ~ (forall n log cs, (1 <= n)%nat -> pool_steps ([], repeat Idle n) (log, cs) ->
       forallb answered cs = true -> length log = 1%nat).
Proof.
  intros H.
  specialize (H 2%nat _ _ ltac:(lia) two_callers_run eq_refl).
  discriminate H.
Qed.

(** C9 (amended): probes are not coalesced: when [n] concurrent callers of
    [checkMOEAvailability] have all been answered, exactly [n] probes have
    been sent, one per caller, whatever the interleaving. *)
Theorem probes_not_coalesced (n : nat) (log : list Request) (cs : list Caller) :
  pool_steps ([], repeat Idle n) (log, cs) -> forallb answered cs = true ->
  log = repeat health_request n.
Proof.
  intros Hs Ha.
  destruct (pool_steps_invariant _ _ Hs) as [Hl Hn].
  - cbn [fst snd]; rewrite started_count_idle; reflexivity.
  - cbn [fst snd] in Hl, Hn.
    rewrite Hl, started_count_answered, Hn, repeat_length by exact Ha.
    reflexivity.
Qed.

Lemma probes_not_coalesced_witness :
  [health_request; health_request] = repeat health_request 2.
Proof.
  exact (probes_not_coalesced 2 _ _ two_callers_run eq_refl).
Defined.

(** ** Further properties of the provider *)

Lemma filterM_user_messages (messages : list JSVal) (w : World) :
  Forall role_readable messages ->
  filterM is_user_message messages w = (w, inr (user_messages messages)).
Proof.
  intros Hall; induction Hall as [|m ms Hm _ IH]; [reflexivity|].
  cbn [filterM].
  assert (Hu : is_user_message m w =
               (w, inr (match get_prop m "role" with
                        | Some r => strict_eq_str r "user"
                        | None => false
                        end))).
  { unfold is_user_message, bind, read, ret, throw, role_readable in *.
    destruct (get_prop m "role"); [reflexivity | contradiction]. }
  unfold bind at 1; rewrite Hu; cbv beta.
  unfold bind at 1; rewrite IH.
  reflexivity.
Qed.

Lemma filterM_null_entry (messages : list JSVal) (w : World) :
  Exists (fun m => get_prop m "role" = None) messages ->
  exists e, filterM is_user_message messages w = (w, inl e).
Proof.
  intros Hex; induction messages as [|m ms IH]; [inversion Hex|].
  cbn [filterM]; unfold bind at 1.
  pose proof (is_user_message_world m w) as Hw.
  inversion Hex as [? ? Hm | ? ? Hrest]; subst.
  - unfold is_user_message, bind, read, throw; rewrite Hm; eauto.
  - destruct (is_user_message m w) as [w1 [e|b]]; cbn in Hw; subst w1; [eauto|].
    destruct (IH Hrest) as [e He].
    unfold bind, ret; rewrite He; eauto.
Qed.

Lemma checkMOEAvailability_affirmative (w : World) (st : Z) (b : JSVal) (rest : list Reply) :
  replies w = RResponse true st (Some b) :: rest -> affirmative_health_body b = true ->
  exists v, checkMOEAvailability w = (mkWorld (app (sent w) [health_request]) rest, inr v) /\
            truthy v = true.
Proof.
  destruct w as [s rs]; cbn [replies]; intros -> Hb.
  unfold affirmative_health_body in Hb.
  unfold checkMOEAvailability, try_catch, bind, fetch, json, read, ret, throw; cbn.
  destruct (get_prop b "status") as [st'|]; [|discriminate].
  destruct (get_prop b "models_loaded") as [ml|]; [|discriminate].
  apply andb_true_iff in Hb as [H1 H2]; rewrite H1; eauto.
Qed.

(** With the service healthy and every message readable, the request
    continues with the user messages the filter keeps. *)
Lemma processMOERequest_healthy (messages : list JSVal) (options : JSVal) (w : World)
    (st : Z) (b : JSVal) (rest : list Reply) :
  replies w = RResponse true st (Some b) :: rest -> affirmative_health_body b = true ->
  Forall role_readable messages ->
  processMOERequest messages options w =
  try_catch
    (let lastUserMessage := pop_last (user_messages messages) in
     if negb (truthy lastUserMessage) then throw (EError "No user message found") else
     moeResponse <- processMOEText (extractMessageText lastUserMessage) no_options ;;
     result <- read moeResponse "result" ;;
     expertUsed <- read moeResponse "expert_used" ;;
     confidence <- read moeResponse "confidence" ;;
     processingTime <- read moeResponse "processing_time" ;;
     ret (JObj [("result", result); ("expertUsed", expertUsed);
                ("confidence", confidence); ("processingTime", processingTime);
                ("usedFallback", JBool false)]))
    (fun _ => ret fallback_result)
    (mkWorld (app (sent w) [health_request]) rest).
Proof.
  intros Hr Hb Hall.
  destruct (checkMOEAvailability_affirmative w st b rest Hr Hb) as (v & Hc & Hv).
  unfold processMOERequest, try_catch at 1, bind at 1.
  rewrite Hc; cbn [negb]; rewrite Hv; cbn [negb].
  unfold bind at 1; rewrite filterM_user_messages by exact Hall.
  reflexivity.
Qed.

(** X1: [processMOEText] sends one POST to [/process/sync] with body
    [{ text, task, options }] (defaults ['process'] and [{}]) under a 30 s
    abort timer; it resolves to the JSON body of an ok response and
    otherwise rejects with an [MOEError]: with the HTTP status for a non-ok
    response, with status 408 for a timeout, and without status for a
    transport failure or a body that is not JSON. *)
Theorem processMOEText_contract (text : string) (o : MOERequestOptions) (w : World) :
  let task := match opt_task o with Some t => t | None => "process" end in
  let options := match opt_options o with Some v => v | None => JObj [] end in
  fst (processMOEText text o w) =
    mkWorld (app (sent w)
               [mkRequest POST (String.append MOE_API_BASE_URL "/process/sync")
                  (Some (JObj [("text", JStr text); ("task", JStr task);
                               ("options", options)])) 30000%Z])
            (tl (replies w)) /\
  (forall st v rest, replies w = RResponse true st (Some v) :: rest ->
     snd (processMOEText text o w) = inr v) /\
  (forall st b rest, replies w = RResponse false st b :: rest ->
     snd (processMOEText text o w) = inl (EMOEError (Some st))) /\
  (forall rest, replies w = RAbort :: rest ->
     snd (processMOEText text o w) = inl (EMOEError (Some 408%Z))) /\
  (forall m rest, replies w = RNetError m :: rest ->
     snd (processMOEText text o w) = inl (EMOEError None)) /\
  (forall st rest, replies w = RResponse true st None :: rest ->
     snd (processMOEText text o w) = inl (EMOEError None)) /\
  (forall e, snd (processMOEText text o w) = inl e -> exists st, e = EMOEError st).
Proof.
  destruct w as [s rs]; cbn [replies sent tl].
  unfold processMOEText, try_catch, bind, fetch, json, ret, throw.
  repeat split; intros; subst; try reflexivity;
    destruct rs as [|r rs]; try discriminate;
    repeat match goal with H : _ :: _ = _ :: _ |- _ => inversion H; subst; clear H end;
    try reflexivity.
  - destruct r as [| m | [|] st [b|]]; reflexivity.
  - match goal with H : snd _ = inl _ |- _ => revert H end.
    cbn; intros H; inversion H; eauto.
  - match goal with H : snd _ = inl _ |- _ => revert H end.
    destruct r as [| m | [|] st [b|]]; cbn; intros H; inversion H; eauto.
Qed.

Lemma pop_last_app_user (pre post : list JSVal) (m : JSVal) :
  get_prop m "role" = Some (JStr "user") -> user_messages post = [] ->
  pop_last (user_messages (app pre (m :: post))) = m.
Proof.
  intros Hm Hp.
  unfold user_messages in *; rewrite filter_app; cbn [filter]; rewrite Hm, Hp; cbn.
  unfold pop_last; rewrite rev_app_distr; reflexivity.
Qed.

Lemma user_role_truthy (m : JSVal) :
  get_prop m "role" = Some (JStr "user") -> truthy m = true.
Proof. destruct m; cbn; congruence. Qed.

(** X2: when the service is healthy and every message is readable, the text
    sent for processing is the text of the last message with role ['user'];
    messages after it (assistant, system, ...) are ignored. *)
Theorem processMOERequest_last_user_message (pre post : list JSVal) (m : JSVal)
    (options : JSVal) (w : World) (st : Z) (b : JSVal) (rest : list Reply) :
  replies w = RResponse true st (Some b) :: rest -> affirmative_health_body b = true ->
  Forall role_readable (app pre (m :: post)) ->
  get_prop m "role" = Some (JStr "user") -> user_messages post = [] ->
  sent (fst (processMOERequest (app pre (m :: post)) options w)) =
  app (sent w) [health_request; process_request (extractMessageText m) "process" (JObj [])].
Proof.
  intros Hr Hb Hall Hm Hp.
  rewrite (processMOERequest_healthy _ options w st b rest Hr Hb Hall).
  cbv zeta; rewrite (pop_last_app_user pre post m Hm Hp), (user_role_truthy m Hm).
  cbn [negb].
  set (w1 := mkWorld (app (sent w) [health_request]) rest).
  pose proof (processMOEText_world (extractMessageText m) w1) as Hw.
  unfold try_catch, bind at 1.
  destruct (processMOEText (extractMessageText m) no_options w1) as [w3 [e|resp]];
    cbn in Hw; subst w3; unfold w1; cbn; [rewrite <- app_assoc; reflexivity|].
  unfold read, bind, ret, throw.
  destruct resp; cbn; rewrite <- app_assoc; reflexivity.
Qed.

Lemma processMOERequest_last_user_message_witness :
  sent (fst (processMOERequest
               (app [user_msg "first"] [user_msg "second"; JObj [("role", JStr "assistant")]])
               (JObj [])
               (mkWorld [] [healthy_reply; RResponse true 200%Z (Some sample_response)]))) =
  app [] [health_request; process_request (extractMessageText (user_msg "second"))
                            "process" (JObj [])].
Proof.
  apply (processMOERequest_last_user_message [user_msg "first"]
           [JObj [("role", JStr "assistant")]] (user_msg "second") (JObj [])
           (mkWorld [] [healthy_reply; RResponse true 200%Z (Some sample_response)])
           200%Z healthy_body [RResponse true 200%Z (Some sample_response)]);
    try reflexivity.
  repeat constructor; cbn; discriminate.
Defined.

(** X3: when the service is healthy but [messages] has no message with
    role ['user'], or some entry is [null] or [undefined], the result is
    [{ usedFallback: true }] and no processing request is sent. *)
Theorem processMOERequest_no_user_message (messages : list JSVal) (options : JSVal)
    (w : World) (st : Z) (b : JSVal) (rest : list Reply) :
  replies w = RResponse true st (Some b) :: rest -> affirmative_health_body b = true ->
  (Forall role_readable messages /\ user_messages messages = [] \/
   Exists (fun m => get_prop m "role" = None) messages) ->
  processMOERequest messages options w =
    (mkWorld (app (sent w) [health_request]) rest, inr fallback_result).
Proof.
  intros Hr Hb [[Hall Hnone] | Hnull].
  - rewrite (processMOERequest_healthy _ options w st b rest Hr Hb Hall), Hnone.
    reflexivity.
  - destruct (checkMOEAvailability_affirmative w st b rest Hr Hb) as (v & Hc & Hv).
    unfold processMOERequest, try_catch at 1, bind at 1.
    rewrite Hc; cbn [negb]; rewrite Hv; cbn [negb].
    unfold bind at 1.
    destruct (filterM_null_entry messages (mkWorld (app (sent w) [health_request]) rest) Hnull)
      as [e He].
    rewrite He; reflexivity.
Qed.

Lemma processMOERequest_no_user_message_witness :
  processMOERequest [JObj [("role", JStr "assistant")]; JNull] (JObj [])
    (mkWorld [] [healthy_reply]) = (mkWorld (app [] [health_request]) [], inr fallback_result).
Proof.
  apply (processMOERequest_no_user_message [JObj [("role", JStr "assistant")]; JNull]
           (JObj []) (mkWorld [] [healthy_reply]) 200%Z healthy_body []); try reflexivity.
  right; constructor 2; constructor; reflexivity.
Defined.

Lemma user_messages_truthy (messages : list JSVal) (x : JSVal) :
  In x (user_messages messages) -> truthy x = true.
Proof.
  unfold user_messages; intros Hin; apply filter_In in Hin as [_ Hx].
  destruct (get_prop x "role") as [r|] eqn:Er; [|discriminate].
  apply strict_eq_str_true in Hx; subst.
  apply user_role_truthy; exact Er.
Qed.

Lemma pop_last_In (xs : list JSVal) : xs <> [] -> In (pop_last xs) xs.
Proof.
  intros Hne; unfold pop_last.
  destruct (rev xs) as [|x r] eqn:E.
  - apply (f_equal (@rev JSVal)) in E; rewrite rev_involutive in E; subst; contradiction.
  - apply in_rev; rewrite E; left; reflexivity.
Qed.

(** X4: when the service is healthy, a user message exists and the
    processing call answers 200 with a JSON object, the result copies its
    [result], [expert_used], [confidence] and [processing_time] into
    [result], [expertUsed], [confidence] and [processingTime], with
    [usedFallback: false]. *)
Theorem processMOERequest_success (messages : list JSVal) (options : JSVal) (w : World)
    (st st2 : Z) (b body : JSVal) (rest : list Reply) (r1 r2 r3 r4 : JSVal) :
  replies w = RResponse true st (Some b) :: RResponse true st2 (Some body) :: rest ->
  affirmative_health_body b = true ->
  Forall role_readable messages -> user_messages messages <> [] ->
  get_prop body "result" = Some r1 -> get_prop body "expert_used" = Some r2 ->
  get_prop body "confidence" = Some r3 -> get_prop body "processing_time" = Some r4 ->
  processMOERequest messages options w =
    (mkWorld (app (sent w)
               [health_request;
                process_request (extractMessageText (pop_last (user_messages messages)))
                  "process" (JObj [])]) rest,
     inr (JObj [("result", r1); ("expertUsed", r2); ("confidence", r3);
                ("processingTime", r4); ("usedFallback", JBool false)])).
Proof.
  intros Hr Hb Hall Hne H1 H2 H3 H4.
  rewrite (processMOERequest_healthy _ options w st b _ Hr Hb Hall).
  cbv zeta.
  rewrite (user_messages_truthy _ _ (pop_last_In _ Hne)); cbn [negb].
  unfold try_catch, bind at 1.
  unfold processMOEText, try_catch at 1, bind at 1, fetch; cbn.
  unfold read, bind, ret, throw; rewrite H1, H2, H3, H4; cbn.
  rewrite <- app_assoc; reflexivity.
Qed.

Lemma processMOERequest_success_witness :
  processMOERequest [user_msg "hello"] (JObj [])
    (mkWorld [] [healthy_reply; RResponse true 200%Z (Some sample_response)]) =
  (mkWorld (app [] [health_request;
                    process_request (extractMessageText (pop_last (user_messages [user_msg "hello"])))
                      "process" (JObj [])]) [],
   inr (JObj [("result", JStr "ok"); ("expertUsed", JStr "longformer");
              ("confidence", JNum (9 # 10)); ("processingTime", JNum 1);
              ("usedFallback", JBool false)])).
Proof.
  apply (processMOERequest_success [user_msg "hello"] (JObj [])
           (mkWorld [] [healthy_reply; RResponse true 200%Z (Some sample_response)])
           200%Z 200%Z healthy_body sample_response []); try reflexivity.
  - repeat constructor; cbn; discriminate.
  - cbn; discriminate.
Defined.

(** X5: a 200 processing response whose JSON body is [null] still ends in
    [{ usedFallback: true }]: reading [moeResponse.result] throws and the
    error is caught. *)
Theorem processMOERequest_null_body (messages : list JSVal) (options : JSVal) (w : World)
    (st st2 : Z) (b : JSVal) (rest : list Reply) :
  replies w = RResponse true st (Some b) :: RResponse true st2 (Some JNull) :: rest ->
  affirmative_health_body b = true ->
  Forall role_readable messages -> user_messages messages <> [] ->
  snd (processMOERequest messages options w) = inr fallback_result.
Proof.
  intros Hr Hb Hall Hne.
  rewrite (processMOERequest_healthy _ options w st b _ Hr Hb Hall).
  cbv zeta.
  rewrite (user_messages_truthy _ _ (pop_last_In _ Hne)); cbn [negb].
  unfold try_catch, bind at 1.
  unfold processMOEText, try_catch at 1, bind at 1, fetch; cbn.
  reflexivity.
Qed.

Lemma processMOERequest_null_body_witness :
  snd (processMOERequest [user_msg "hello"] (JObj [])
         (mkWorld [] [healthy_reply; RResponse true 200%Z (Some JNull)])) =
  inr fallback_result.
Proof.
  apply (processMOERequest_null_body _ _ _ 200%Z 200%Z healthy_body []); try reflexivity.
  - repeat constructor; cbn; discriminate.
  - cbn; discriminate.
Defined.

(** X6: the MOE middlewares of [myProvider] run the default model
    ([generate]) exactly when [processMOERequest] falls back, in particular
    when the health check is negative; otherwise they return
    [{ text: result }] without running it. *)
Theorem moe_middleware_dispatch (expertModel : option string) (messages : list JSVal)
    (generate : M JSVal) (w : World) :
  (forall w' res, processMOERequest messages (expert_options expertModel) w = (w', inr res) ->
     get_prop res "usedFallback" = Some (JBool true) ->
     moe_middleware expertModel messages generate w = generate w') /\
  (forall w' res r, processMOERequest messages (expert_options expertModel) w = (w', inr res) ->
     get_prop res "usedFallback" = Some (JBool false) -> get_prop res "result" = Some r ->
     moe_middleware expertModel messages generate w = (w', inr (JObj [("text", r)]))) /\
  (forall w1 v, checkMOEAvailability w = (w1, inr v) -> truthy v = false ->
     moe_middleware expertModel messages generate w = generate w1).
Proof.
  unfold moe_middleware.
  split; [|split].
  - intros w' res Hp Hu; unfold bind at 1; rewrite Hp.
    unfold read, bind at 1; rewrite Hu; reflexivity.
  - intros w' res r Hp Hu Hr; unfold bind at 1; rewrite Hp.
    unfold read, bind at 1; rewrite Hu; cbn; unfold bind; rewrite Hr; reflexivity.
  - intros w1 v Hc Hv; unfold bind at 1.
    rewrite (processMOERequest_unavailable _ _ w w1 v Hc Hv); reflexivity.
Qed.

Lemma moe_middleware_dispatch_witness :
  moe_middleware (Some "byt5") [user_msg "hi"] (ret (JStr "default model"))
    (mkWorld [] [RAbort]) = ret (JStr "default model") (mkWorld [health_request] []).
Proof.
  destruct (moe_middleware_dispatch (Some "byt5") [user_msg "hi"]
              (ret (JStr "default model")) (mkWorld [] [RAbort])) as (_ & _ & H).
  apply (H _ (JBool false)); reflexivity.
Defined.

(** *** The chat route *)

Lemma post_catch_status (error : Thrown) :
  fst (post_catch error) = 408%Z \/ fst (post_catch error) = 503%Z \/
  fst (post_catch error) = 500%Z.
Proof.
  unfold post_catch.
  destruct (_ && _); [left; reflexivity|].
  destruct (_ || _); [right; left; reflexivity|right; right; reflexivity].
Qed.

(** X7: the outer [catch] of [POST] answers 408 exactly for an [Error]
    whose message contains ["timed out"] or ["aborted"], whatever else the
    message says; a thrown value that is not an [Error] always gives 500,
    even a string mentioning the database or a timeout. *)
Theorem post_catch_classification :
  (forall error, fst (post_catch error) = 408%Z <->
     exists m, error = ThrownError m /\
       (includes m "timed out" || includes m "aborted") = true) /\
  (forall v, post_catch (ThrownValue v) = (500%Z, generic_response_text)) /\
  (forall m, (includes m "timed out" || includes m "aborted") = false ->
     fst (post_catch (ThrownError m)) = 503%Z <->
     (includes m "database" || includes m "connection") = true).
Proof.
  split; [|split].
  - intros [m|v]; unfold post_catch; cbn [andb].
    + split.
      * destruct (includes m "timed out" || includes m "aborted") eqn:E;
          [intros _; exists m; split; [reflexivity|exact E]|].
        destruct (includes m "database" || includes m "connection"); intros H; discriminate H.
      * intros (m' & Hm & Hi); inversion Hm; subst; rewrite Hi; reflexivity.
    + split; [intros H; vm_compute in H; discriminate|].
      intros (m' & Hm & _); discriminate.
  - intros v; reflexivity.
  - intros m Ht; unfold post_catch; cbn [andb]; rewrite Ht.
    destruct (includes m "database" || includes m "connection"); split; intros H;
      try reflexivity; cbn in H; discriminate H.
Qed.

Lemma post_catch_not_429 (t : Thrown) : fst (post_catch t) <> 429%Z.
Proof. destruct (post_catch_status t) as [H|[H|H]]; rewrite H; discriminate. Qed.

Lemma route_POST_resolves (b : option PostBody) (be : Backend) (s : RState) :
  exists o, snd (route_POST b be s) = inr o.
Proof.
  destruct b as [[id message model]|]; [|eexists; reflexivity].
  destruct s as [w l]; route_unfold.
  split_matches; eexists; reflexivity.
Qed.

Lemma route_POST_response_world (b : option PostBody) (be : Backend) (s s' : RState)
    (st : Z) (txt : string) :
  route_POST b be s = (s', inr (PostResponse st txt)) -> rs_world s' = rs_world s.
Proof.
  destruct b as [[id message model]|]; [|intros H; inversion H; reflexivity].
  destruct s as [w l]; route_unfold.
  split_matches; intros H; inversion H; subst; reflexivity.
Qed.

Lemma route_POST_stream (b : option PostBody) (be : Backend) (s s' : RState)
    (isMOEModel : bool) (moeAvailable : JSVal) (tools : list string) :
  route_POST b be s = (s', inr (PostStream isMOEModel moeAvailable tools)) ->
  exists id message model,
    b = Some (mkPostBody id message model) /\
    isMOEModel = startsWith model "moe-" /\
    tools = active_tools model isMOEModel /\
    (if isMOEModel then checkMOEAvailability (rs_world s) = (rs_world s', inr moeAvailable)
     else moeAvailable = JBool false /\ rs_world s' = rs_world s).
Proof.
  destruct b as [[id message model]|]; [|intros H; discriminate H].
  destruct s as [w l]; route_unfold.
  split_matches; intros H; inversion H; subst; exists id, message, model;
    repeat split; try reflexivity.
  all: try (symmetry; assumption).
  all: match goal with
       | Hc : checkMOEAvailability _ = (_, inl _) |- _ =>
           destruct (checkMOEAvailability_resolves w) as [v Hv];
           rewrite Hc in Hv; discriminate Hv
       end.
Qed.

Lemma onError_moe_unavailable_cond (error : JSVal) (isMOEModel : bool) (moeAvailable : JSVal) :
  onError error isMOEModel moeAvailable = Some moe_unavailable_text ->
  isMOEModel = true /\ truthy moeAvailable = false.
Proof.
  unfold onError.
  destruct (get_prop error "name") as [name|]; [|discriminate].
  destruct (if strict_eq_str name "AbortError" then Some true else _) as [[|]|];
    try discriminate.
  destruct isMOEModel, (truthy moeAvailable); cbn; try discriminate; auto.
Qed.

(** X8: before authentication nothing is touched.  A body that fails to
    parse or validate gets 400 with no call at all; after [auth()] a
    session without [user] gets 401, and an [auth()] that throws goes to
    the outer [catch]; in both cases [auth()] is the only call and no HTTP
    request is sent. *)
Theorem route_POST_before_user (be : Backend) (s : RState) :
  route_POST None be s = (s, inr (PostResponse 400%Z "Invalid request body")) /\
  (forall b session, be_auth be = inr session ->
     truthy (opt_get session "user") = false ->
     route_POST (Some b) be s =
       (mkRState (rs_world s) (app (rs_log s) [CAuth]),
        inr (PostResponse 401%Z "Unauthorized"))) /\
  (forall b t, be_auth be = inl t ->
     route_POST (Some b) be s =
       (mkRState (rs_world s) (app (rs_log s) [CAuth]),
        inr (PostResponse (fst (post_catch t)) (snd (post_catch t))))).
Proof.
  split; [reflexivity|split].
  - intros [id message model] session Ha Hu.
    destruct s as [w l]; route_unfold.
    rewrite Ha, Hu; reflexivity.
  - intros [id message model] t Ha.
    destruct s as [w l]; route_unfold.
    rewrite Ha; reflexivity.
Qed.

(** X9: with the session user's type and id read, the message count and
    the day's limit known, [POST] answers 429 exactly when the count is
    strictly above the limit (a count equal to the limit passes), and then
    it has called only [auth()] and [getMessageCountByUserId]. *)
Theorem route_POST_quota (b : PostBody) (be : Backend) (s : RState)
    (session ty uid : JSVal) (messageCount maxMessagesPerDay : Q) :
  be_auth be = inr session -> truthy (opt_get session "user") = true ->
  get_prop (opt_get session "user") "type" = Some ty ->
  get_prop (opt_get session "user") "id" = Some uid ->
  be_message_count be = inr messageCount ->
  be_max_messages be ty = Some maxMessagesPerDay ->
  (snd (route_POST (Some b) be s) = inr (PostResponse 429%Z quota_response_text) <->
   (maxMessagesPerDay < messageCount)%Q) /\
  ((maxMessagesPerDay < messageCount)%Q ->
   fst (route_POST (Some b) be s) =
   mkRState (rs_world s) (app (rs_log s) [CAuth; CMessageCount uid])).
Proof.
  intros Ha Hu Ht Hi Hc Hm.
  destruct b as [id message model], s as [w l].
  route_unfold.
  rewrite Ha, Hu, Ht, Hi, Hc, Hm; cbv beta iota zeta.
  destruct (Qle_bool messageCount maxMessagesPerDay) eqn:Hq; cbn [negb].
  - apply Qle_bool_iff, Qle_not_lt in Hq.
    split; [|intros H; contradiction].
    split; [|intros H; contradiction].
    split_matches; intros H; try discriminate H;
      injection H; intros; exfalso; eapply post_catch_not_429; eassumption.
  - assert (Hlt : (maxMessagesPerDay < messageCount)%Q).
    { apply Qnot_le_lt; intros Hle; apply Qle_bool_iff in Hle; congruence. }
    split; [split; intros; [exact Hlt|reflexivity]|].
    intros _; cbn; rewrite <- app_assoc; reflexivity.
Qed.

Lemma route_POST_quota_witness :
  let session := JObj [("user", JObj [("type", JStr "regular"); ("id", JStr "u1")])] in
  let be := mkBackend (inr session) (inr 20%Q) (fun _ => Some 20%Q) (inr JUndefined)
              (inr (JStr "title")) (inr tt) (inr (JArr [])) (inr tt) (inr JNull) in
  (snd (route_POST (Some (mkPostBody "c1" JNull "chat-model")) be (mkRState (mkWorld [] []) []))
     = inr (PostResponse 429%Z quota_response_text) <-> (20 < 20)%Q) /\
  ((20 < 20)%Q ->
   fst (route_POST (Some (mkPostBody "c1" JNull "chat-model")) be (mkRState (mkWorld [] []) [])) =
   mkRState (rs_world (mkRState (mkWorld [] []) []))
     (app (rs_log (mkRState (mkWorld [] []) [])) [CAuth; CMessageCount (JStr "u1")])).
Proof.
  intros session be.
  apply (route_POST_quota (mkPostBody "c1" JNull "chat-model") be (mkRState (mkWorld [] []) [])
           session (JStr "regular") (JStr "u1") 20%Q 20%Q); reflexivity.
Defined.

(** X10: a chat that exists and whose [userId] differs from the session
    user's id is answered 403: no title is generated, nothing is saved,
    and no request goes to the MOE service. *)
Theorem route_POST_forbidden (id : string) (message : JSVal) (model : string)
    (be : Backend) (s : RState) (session ty uid chat owner : JSVal)
    (messageCount maxMessagesPerDay : Q) :
  be_auth be = inr session -> truthy (opt_get session "user") = true ->
  get_prop (opt_get session "user") "type" = Some ty ->
  get_prop (opt_get session "user") "id" = Some uid ->
  be_message_count be = inr messageCount ->
  be_max_messages be ty = Some maxMessagesPerDay ->
  (messageCount <= maxMessagesPerDay)%Q ->
  be_chat be = inr chat -> truthy chat = true ->
  get_prop chat "userId" = Some owner -> strict_eq owner uid = false ->
  route_POST (Some (mkPostBody id message model)) be s =
    (mkRState (rs_world s) (app (rs_log s) [CAuth; CMessageCount uid; CGetChat id]),
     inr (PostResponse 403%Z "Forbidden")).
Proof.
  intros Ha Hu Ht Hi Hc Hm Hq Hch Htr Ho Hne.
  apply Qle_bool_iff in Hq.
  destruct s as [w l]; route_unfold.
  rewrite Ha, Hu, Ht, Hi, Hc, Hm; cbv beta iota zeta.
  rewrite Hq, Hch, Htr, Ho; cbv beta iota zeta; rewrite Hne; cbn.
  rewrite <- !app_assoc; reflexivity.
Qed.

Lemma route_POST_forbidden_witness :
  let session := JObj [("user", JObj [("type", JStr "regular"); ("id", JStr "u1")])] in
  let chat := JObj [("id", JStr "c1"); ("userId", JStr "u2")] in
  let be := mkBackend (inr session) (inr 3%Q) (fun _ => Some 20%Q) (inr chat)
              (inr (JStr "title")) (inr tt) (inr (JArr [])) (inr tt) (inr JNull) in
  route_POST (Some (mkPostBody "c1" JNull "moe-auto")) be (mkRState (mkWorld [] []) []) =
    (mkRState (rs_world (mkRState (mkWorld [] []) []))
       (app (rs_log (mkRState (mkWorld [] []) [])) [CAuth; CMessageCount (JStr "u1"); CGetChat "c1"]),
     inr (PostResponse 403%Z "Forbidden")).
Proof.
  intros session chat be.
  apply (route_POST_forbidden "c1" JNull "moe-auto" be (mkRState (mkWorld [] []) [])
           session (JStr "regular") (JStr "u1") chat (JStr "u2") 3%Q 20%Q);
    try reflexivity.
  vm_compute; discriminate.
Defined.

(** X11: [POST] sends at most one HTTP request, the MOE health probe, and
    only on the way to a stream for a model whose id starts with
    ["moe-"]; such a stream runs with no tools.  Every other outcome, and
    every stream for another model (with [moeAvailable = false]), leaves
    the outbound HTTP traffic untouched. *)
Theorem route_POST_probe (b : option PostBody) (be : Backend) (s : RState) :
  match route_POST b be s with
  | (s', inr (PostStream isMOEModel moeAvailable tools)) =>
      exists id message model,
        b = Some (mkPostBody id message model) /\
        isMOEModel = startsWith model "moe-" /\
        (if isMOEModel
         then tools = [] /\ sent (rs_world s') = app (sent (rs_world s)) [health_request]
         else moeAvailable = JBool false /\ rs_world s' = rs_world s)
  | (s', _) => rs_world s' = rs_world s
  end.
Proof.
  destruct (route_POST b be s) as [s' [t|[st txt|isMOEModel moeAvailable tools]]] eqn:E.
  - destruct (route_POST_resolves b be s) as [o Ho]; rewrite E in Ho; discriminate.
  - exact (route_POST_response_world _ _ _ _ _ _ E).
  - destruct (route_POST_stream _ _ _ _ _ _ _ E) as (id & message & model & Hb & Hm & Ht & Hw).
    exists id, message, model; split; [exact Hb|split; [exact Hm|]].
    destruct isMOEModel.
    + split.
      * rewrite Ht; unfold active_tools; rewrite orb_true_r; reflexivity.
      * pose proof (checkMOEAvailability_world (rs_world s)) as Hs.
        rewrite Hw in Hs; cbn in Hs; rewrite Hs; reflexivity.
    + exact Hw.
Qed.

(** X12: when the stream's [onError] tells the user that the MOE service
    is unavailable, the model id starts with ["moe-"] and the health probe
    was sent during this very request and did not answer truthily. *)
Theorem onError_moe_unavailable (b : option PostBody) (be : Backend) (s s' : RState)
    (isMOEModel : bool) (moeAvailable : JSVal) (tools : list string) (error : JSVal) :
  route_POST b be s = (s', inr (PostStream isMOEModel moeAvailable tools)) ->
  onError error isMOEModel moeAvailable = Some moe_unavailable_text ->
  exists id message model,
    b = Some (mkPostBody id message model) /\ startsWith model "moe-" = true /\
    checkMOEAvailability (rs_world s) = (rs_world s', inr moeAvailable) /\
    truthy moeAvailable = false.
Proof.
  intros Hr He.
  destruct (onError_moe_unavailable_cond _ _ _ He) as [Hm Hv]; subst isMOEModel.
  destruct (route_POST_stream _ _ _ _ _ _ _ Hr) as (id & message & model & Hb & Hs & _ & Hw).
  exists id, message, model; repeat split; auto.
Qed.

Lemma onError_moe_unavailable_witness :
  let be := mkBackend (inr (JObj [("user", JObj [("type", JStr "regular"); ("id", JStr "u1")])]))
              (inr 0%Q) (fun _ => Some 20%Q) (inr JUndefined) (inr (JStr "title"))
              (inr tt) (inr (JArr [])) (inr tt) (inr JNull) in
  let s := mkRState (mkWorld [] [RAbort]) [] in
  exists id message model,
    Some (mkPostBody "c1" JNull "moe-auto") = Some (mkPostBody id message model) /\
    startsWith model "moe-" = true /\
    checkMOEAvailability (rs_world s) =
      (rs_world (fst (route_POST (Some (mkPostBody "c1" JNull "moe-auto")) be s)), inr (JBool false)) /\
    truthy (JBool false) = false.
Proof.
  intros be s.
  apply (onError_moe_unavailable (Some (mkPostBody "c1" JNull "moe-auto")) be s
           (fst (route_POST (Some (mkPostBody "c1" JNull "moe-auto")) be s)) true (JBool false) []
           (JObj [("name", JStr "Error"); ("message", JStr "stream failed")]));
    reflexivity.
Defined.

(** X13: [onError] itself throws exactly when the error is [null] or
    [undefined], or when it is not named ["AbortError"] and its [message]
    is a value with no [includes] method (a number, a boolean or a plain
    object); a missing message or a string or array message never makes
    it throw. *)
Theorem onError_throws (error : JSVal) (isMOEModel : bool) (moeAvailable : JSVal) :
  onError error isMOEModel moeAvailable = None <->
  error = JUndefined \/ error = JNull \/
  (strict_eq_str (opt_get error "name") "AbortError" = false /\
   message_includes (opt_get error "message") "timed out" = None).
Proof.
  unfold onError, opt_get.
  destruct error as [| | b | q | | str | xs | fs]; cbn [get_prop];
    try (split; [intros _; auto|reflexivity]).
  all: cbn [strict_eq_str message_includes].
  all: try match goal with
           | fs : list (string * JSVal) |- _ =>
             destruct (strict_eq_str (match lookup_field "name" fs with
                                      | Some x => x | None => JUndefined end) "AbortError");
             [|destruct (message_includes (match lookup_field "message" fs with
                                           | Some x => x | None => JUndefined end) "timed out")
                 as [[|]|]]
           end.
  all: try (split; [intros _; right; right; split; reflexivity|reflexivity]).
  all: try destruct (isMOEModel && negb (truthy moeAvailable)).
  all: split.
  all: first [intros H; cbn in H; discriminate H
             |intros [H|[H|[H H']]]; try discriminate H; cbn in H'; discriminate H'].
Qed.

(** X14: [DELETE] never sends an HTTP request, and it deletes a chat only
    after reading it and finding that its [userId] is [===] to the
    session user's (truthy) id; a 200 answer carries what
    [deleteChatById] returned, after exactly the calls [auth()],
    [getChatById] and [deleteChatById] on the requested id. *)
Theorem route_DELETE_owner_only (id : option string) (be : Backend) (s s' : RState)
    (r : Thrown + (Z * JSVal)) :
  route_DELETE id be s = (s', r) ->
  rs_world s' = rs_world s /\
  (forall i, In (CDeleteChat i) (rs_log s') -> In (CDeleteChat i) (rs_log s) \/
     (id = Some i /\
      exists session chat owner,
        be_auth be = inr session /\ be_chat be = inr chat /\
        get_prop chat "userId" = Some owner /\
        truthy (opt_get (opt_get session "user") "id") = true /\
        strict_eq owner (opt_get (opt_get session "user") "id") = true)) /\
  (forall d, r = inr (200%Z, d) ->
     exists i, id = Some i /\ be_delete be = inr d /\
       rs_log s' = app (rs_log s) [CAuth; CGetChat i; CDeleteChat i]).
Proof.
  destruct s as [w l].
  destruct id as [i|]; [|intros H; inversion H; subst; split; [reflexivity|];
                        split; [intros i Hi; left; exact Hi|intros d Hd; discriminate Hd]].
  route_unfold.
  split_matches; intros H; inversion H; subst; clear H;
    (split; [reflexivity|split]);
    try (intros d Hd; discriminate Hd);
    try (intros i' Hi'; left;
         repeat (rewrite in_app_iff in Hi'; destruct Hi' as [Hi'|Hi']; [|]);
         first [exact Hi' | cbn in Hi'; destruct Hi' as [Hi'|[]]; discriminate Hi']).
  all: try (intros d Hd; injection Hd; intros; subst; exists i;
            repeat split; rewrite <- !app_assoc; reflexivity).
  all: intros i' Hi'; rewrite !in_app_iff in Hi';
    destruct Hi' as [[[Hi'|Hi']|Hi']|Hi']; [left; exact Hi'|..];
    cbn in Hi'; destruct Hi' as [Hi'|[]]; try discriminate Hi'.
  all: injection Hi'; intros; subst; right; split; [reflexivity|].
  all: do 3 eexists; repeat split; try eassumption; apply negb_false_iff; assumption.
Qed.

Lemma route_DELETE_owner_only_witness :
  let session := JObj [("user", JObj [("id", JStr "u1")])] in
  let chat := JObj [("id", JStr "c1"); ("userId", JStr "u1")] in
  let be := mkBackend (inr session) (inr 0%Q) (fun _ => None) (inr chat) (inr JNull)
              (inr tt) (inr (JArr [])) (inr tt) (inr chat) in
  let s := mkRState (mkWorld [] []) [] in
  let s' := fst (route_DELETE (Some "c1") be s) in
  let r := snd (route_DELETE (Some "c1") be s) in
  rs_world s' = rs_world s /\
  (forall i, In (CDeleteChat i) (rs_log s') -> In (CDeleteChat i) (rs_log s) \/
     (Some "c1" = Some i /\
      exists session chat owner,
        be_auth be = inr session /\ be_chat be = inr chat /\
        get_prop chat "userId" = Some owner /\
        truthy (opt_get (opt_get session "user") "id") = true /\
        strict_eq owner (opt_get (opt_get session "user") "id") = true)) /\
  (forall d, r = inr (200%Z, d) ->
     exists i, Some "c1" = Some i /\ be_delete be = inr d /\
       rs_log s' = app (rs_log s) [CAuth; CGetChat i; CDeleteChat i]).
Proof.
  intros session chat be s s' r.
  apply (route_DELETE_owner_only (Some "c1") be s s' r).
  reflexivity.
Defined.

(** X15: edge cases of [DELETE].  An empty [id] is "not found" without
    even calling [auth()]; a session with no user id gets 401 after
    [auth()] alone; an [auth()] that throws is not caught by the handler;
    and a chat id that [getChatById] does not find ([undefined] or
    [null]) is answered 500, not 404, with nothing deleted. *)
Theorem route_DELETE_edges (be : Backend) (s : RState) :
  route_DELETE (Some "") be s = (s, inr (404%Z, JStr "Not Found")) /\
  (forall i session, i <> "" -> be_auth be = inr session ->
     truthy (opt_get (opt_get session "user") "id") = false ->
     route_DELETE (Some i) be s =
       (mkRState (rs_world s) (app (rs_log s) [CAuth]), inr (401%Z, JStr "Unauthorized"))) /\
  (forall i t, i <> "" -> be_auth be = inl t ->
     route_DELETE (Some i) be s = (mkRState (rs_world s) (app (rs_log s) [CAuth]), inl t)) /\
  (forall i session chat, i <> "" -> be_auth be = inr session ->
     truthy (opt_get (opt_get session "user") "id") = true ->
     be_chat be = inr chat -> (chat = JUndefined \/ chat = JNull) ->
     route_DELETE (Some i) be s =
       (mkRState (rs_world s) (app (rs_log s) [CAuth; CGetChat i]),
        inr (500%Z, JStr generic_response_text))).
Proof.
  destruct s as [w l].
  split; [reflexivity|split; [|split]].
  - intros i session Hi Ha Hu; apply String.eqb_neq in Hi.
    route_unfold; cbn [truthy negb]; rewrite Hi; cbn [negb].
    rewrite Ha, Hu; reflexivity.
  - intros i t Hi Ha; apply String.eqb_neq in Hi.
    route_unfold; cbn [truthy negb]; rewrite Hi; cbn [negb].
    rewrite Ha; reflexivity.
  - intros i session chat Hi Ha Hu Hc Hn; apply String.eqb_neq in Hi.
    route_unfold; cbn [truthy negb]; rewrite Hi; cbn [negb].
    rewrite Ha, Hu, Hc; cbn [negb].
    destruct Hn as [->| ->]; cbn; rewrite <- app_assoc; reflexivity.
Qed.

(** *** The deployment script *)

Module DeployFacts.
Import DeployScript.
Local Open Scope list_scope.

Lemma str_eqb_eq (a b : str) : str_eqb a b = true <-> a = b.
Proof.
  unfold str_eqb; destruct (list_eq_dec ascii_dec a b); split; congruence.
Qed.

Lemma str_eqb_refl (a : str) : str_eqb a a = true.
Proof. apply str_eqb_eq; reflexivity. Qed.

Lemma str_eqb_sym (a b : str) : str_eqb a b = str_eqb b a.
Proof.
  destruct (str_eqb a b) eqn:E1, (str_eqb b a) eqn:E2; auto.
  - apply str_eqb_eq in E1; subst; rewrite str_eqb_refl in E2; discriminate.
  - apply str_eqb_eq in E2; subst; rewrite str_eqb_refl in E1; discriminate.
Qed.

(** split and join *)

Lemma split_on_not_nil (sep : ascii) (s : str) : split_on sep s <> [].
Proof.
  destruct s as [|c s']; cbn; [discriminate|].
  destruct (Ascii.eqb c sep); [discriminate|].
  destruct (split_on sep s'); discriminate.
Qed.

Lemma split_on_no_sep (sep : ascii) (s : str) : ~ In sep s -> split_on sep s = [s].
Proof.
  induction s as [|c s IH]; intros Hn; [reflexivity|].
  cbn; rewrite IH by (intros H; apply Hn; right; exact H).
  destruct (Ascii.eqb c sep) eqn:E; [|reflexivity].
  apply Ascii.eqb_eq in E; subst; exfalso; apply Hn; left; reflexivity.
Qed.

Lemma split_on_app (sep : ascii) (k v : str) :
  ~ In sep k -> split_on sep (k ++ sep :: v) = k :: split_on sep v.
Proof.
  induction k as [|c k IH]; intros Hn.
  - cbn; rewrite Ascii.eqb_refl; reflexivity.
  - cbn; rewrite IH by (intros H; apply Hn; right; exact H).
    destruct (Ascii.eqb c sep) eqn:E; [|reflexivity].
    apply Ascii.eqb_eq in E; subst; exfalso; apply Hn; left; reflexivity.
Qed.

Lemma join_on_cons (sep : ascii) (p : str) (ps : list str) :
  join_on sep (p :: ps) = p ++ match ps with [] => [] | _ => sep :: join_on sep ps end.
Proof. destruct ps; cbn; [rewrite app_nil_r|]; reflexivity. Qed.

Lemma join_split (sep : ascii) (s : str) : join_on sep (split_on sep s) = s.
Proof.
  induction s as [|c s IH]; [reflexivity|].
  cbn [split_on].
  pose proof (split_on_not_nil sep s) as Hne.
  destruct (Ascii.eqb c sep) eqn:E.
  - apply Ascii.eqb_eq in E; subst.
    rewrite join_on_cons; destruct (split_on _ s) as [|p ps]; [contradiction|].
    cbn [app]; rewrite IH; reflexivity.
  - destruct (split_on sep s) as [|p ps] eqn:Es; [contradiction|].
    rewrite join_on_cons; rewrite join_on_cons in IH.
    cbn [app]; rewrite IH; reflexivity.
Qed.

(** the envVars object *)

Lemma lookup_env_map (m : list (str * str)) (k' v k : str) :
  lookup_env (map (fun kv => if str_eqb (fst kv) k' then (k', v) else kv) m) k =
  if str_eqb k' k
  then (if existsb (fun kv => str_eqb (fst kv) k') m then Some v else None)
  else lookup_env m k.
Proof.
  unfold lookup_env; destruct (str_eqb k' k) eqn:Ekk.
  - apply str_eqb_eq in Ekk; subst k'.
    induction m as [|[k0 v0] m IH]; cbn; [reflexivity|].
    destruct (str_eqb k0 k) eqn:E0; cbn; [rewrite str_eqb_refl; reflexivity|].
    rewrite E0; exact IH.
  - induction m as [|[k0 v0] m IH]; cbn; [reflexivity|].
    destruct (str_eqb k0 k') eqn:E0; cbn.
    + apply str_eqb_eq in E0; subst k0; rewrite Ekk; exact IH.
    + destruct (str_eqb k0 k); [reflexivity|exact IH].
Qed.

Lemma lookup_env_snoc (m : list (str * str)) (k' v k : str) :
  lookup_env (m ++ [(k', v)]) k =
  match lookup_env m k with
  | Some x => Some x
  | None => if str_eqb k' k then Some v else None
  end.
Proof.
  unfold lookup_env.
  induction m as [|[k0 v0] m IH]; cbn.
  - destruct (str_eqb k' k); reflexivity.
  - destruct (str_eqb k0 k); [reflexivity|exact IH].
Qed.

Lemma lookup_env_absent (m : list (str * str)) (k : str) :
  existsb (fun kv => str_eqb (fst kv) k) m = false -> lookup_env m k = None.
Proof.
  unfold lookup_env; induction m as [|[k0 v0] m IH]; cbn; [reflexivity|].
  destruct (str_eqb k0 k); [discriminate|exact IH].
Qed.

Lemma lookup_set_env (m : list (str * str)) (k' v k : str) :
  str_eqb k (lit "__proto__") = false ->
  lookup_env (set_env m k' v) k = if str_eqb k' k then Some v else lookup_env m k.
Proof.
  intros Hk; unfold set_env.
  destruct (str_eqb k' (lit "__proto__")) eqn:Ep.
  - apply str_eqb_eq in Ep; subst k'.
    rewrite str_eqb_sym, Hk; reflexivity.
  - destruct (existsb (fun kv => str_eqb (fst kv) k') m) eqn:Ex.
    + rewrite lookup_env_map, Ex; reflexivity.
    + rewrite lookup_env_snoc.
      destruct (str_eqb k' k) eqn:E.
      * apply str_eqb_eq in E; subst k'.
        rewrite (lookup_env_absent _ _ Ex); reflexivity.
      * destruct (lookup_env m k); reflexivity.
Qed.

Lemma set_env_no_proto (m : list (str * str)) (k v : str) :
  Forall (fun kv => str_eqb (fst kv) (lit "__proto__") = false) m ->
  Forall (fun kv => str_eqb (fst kv) (lit "__proto__") = false) (set_env m k v).
Proof.
  intros Hm; unfold set_env.
  destruct (str_eqb k (lit "__proto__")) eqn:Ep; [exact Hm|].
  destruct (existsb _ m).
  - apply Forall_map, (Forall_impl _ (P := fun kv => str_eqb (fst kv) (lit "__proto__") = false));
      [|exact Hm].
    intros [k0 v0] H; cbn; destruct (str_eqb k0 k); [exact Ep|exact H].
  - apply Forall_app; split; [exact Hm|repeat constructor; exact Ep].
Qed.

(** the regular expression of [checkMoeApiUrl] *)

Lemma starts_with_app_l (s p : str) : starts_with (p ++ s) p = true.
Proof.
  induction p as [|c p IH]; [destruct s; reflexivity|].
  cbn; rewrite Ascii.eqb_refl; exact IH.
Qed.

Lemma starts_with_before_LF (x y p : str) :
  ~ In LF p -> starts_with (x ++ LF :: y) p = true -> starts_with x p = true.
Proof.
  revert p; induction x as [|c x IH]; intros p Hn Hs.
  - destruct p as [|d p]; [reflexivity|].
    cbn in Hs; apply andb_true_iff in Hs as [Hd _].
    apply Ascii.eqb_eq in Hd; subst; exfalso; apply Hn; left; reflexivity.
  - destruct p as [|d p]; [reflexivity|].
    cbn in Hs |- *; apply andb_true_iff in Hs as [Hd Hs].
    rewrite Hd; apply IH; [intros H; apply Hn; right; exact H|exact Hs].
Qed.

Lemma includes_starts_with (s p : str) : starts_with s p = true -> includes s p = true.
Proof. destruct s; cbn; intros ->; reflexivity. Qed.

Lemma includes_cons_false (c : ascii) (s p : str) :
  includes (c :: s) p = false -> includes s p = false.
Proof. cbn; intros H; apply orb_false_iff in H as [_ H]; exact H. Qed.

Lemma LF_not_in_key : ~ In LF MOE_KEY.
Proof. vm_compute; intros H; repeat destruct H as [H|H]; discriminate H || contradiction. Qed.

Lemma moe_exec_cons (c : ascii) (s : str) :
  moe_exec (c :: s) =
  match moe_match_here (c :: s) with
  | Some (v, a) => Some ([], v, a)
  | None => match moe_exec s with
            | Some (b, v, a) => Some (c :: b, v, a)
            | None => None
            end
  end.
Proof. reflexivity. Qed.

Lemma moe_match_here_no_key (s : str) :
  starts_with s MOE_KEY = false -> moe_match_here s = None.
Proof. unfold moe_match_here; intros ->; reflexivity. Qed.

(** No match starts inside a text without the key that ends in a line
    feed. *)
Lemma moe_exec_after_LF (x s : str) :
  includes x MOE_KEY = false ->
  moe_exec (x ++ LF :: s) =
  match moe_exec s with
  | Some (b, v, a) => Some (x ++ LF :: b, v, a)
  | None => None
  end.
Proof.
  induction x as [|c x IH]; intros Hx.
  - cbn [app]; rewrite moe_exec_cons, moe_match_here_no_key by reflexivity.
    reflexivity.
  - cbn [app]; rewrite moe_exec_cons, moe_match_here_no_key.
    + rewrite (IH (includes_cons_false _ _ _ Hx)).
      destruct (moe_exec s) as [[[b v] a]|]; reflexivity.
    + destruct (starts_with (c :: x ++ LF :: s) MOE_KEY) eqn:E; [|reflexivity].
      apply (starts_with_before_LF (c :: x) s _ LF_not_in_key) in E.
      apply includes_starts_with in E; congruence.
Qed.

Lemma take_line_clean (u a : str) : clean u -> take_line (u ++ a) = u ++ take_line a.
Proof.
  induction u as [|c u IH]; intros Hu; [reflexivity|].
  destruct (Hu c (or_introl eq_refl)) as (H1 & H2 & H3).
  cbn [app take_line].
  replace (at_terminator (c :: u ++ a)) with false.
  - rewrite IH; [reflexivity|intros d Hd; apply Hu; right; exact Hd].
  - unfold at_terminator; cbn [starts_with].
    apply Ascii.eqb_neq in H1; apply Ascii.eqb_neq in H2; apply Ascii.eqb_neq in H3.
    rewrite Ascii.eqb_sym in H1, H2, H3; rewrite H1, H2, H3; reflexivity.
Qed.

Lemma moe_exec_key (u : str) :
  u <> [] -> clean u -> moe_exec (MOE_KEY ++ u) = Some ([], u, []).
Proof.
  intros Hne Hu.
  assert (Hh : moe_match_here (MOE_KEY ++ u) = Some (u, [])).
  { unfold moe_match_here; rewrite starts_with_app_l.
    replace (skipn (length MOE_KEY) (MOE_KEY ++ u)) with u
      by (rewrite skipn_app, skipn_all, Nat.sub_diag; reflexivity).
    rewrite <- (app_nil_r u) at 1; rewrite take_line_clean by exact Hu; cbn [take_line].
    rewrite app_nil_r; destruct u as [|c u]; [contradiction|].
    rewrite skipn_all; reflexivity. }
  change (MOE_KEY ++ u) with ("M"%char :: (tl MOE_KEY ++ u)).
  rewrite moe_exec_cons.
  change ("M"%char :: (tl MOE_KEY ++ u)) with (MOE_KEY ++ u).
  rewrite Hh; reflexivity.
Qed.

Lemma moe_exec_capture (s b v a : str) : moe_exec s = Some (b, v, a) -> v <> [].
Proof.
  revert b; induction s as [|c s IH]; intros b.
  - cbn; unfold moe_match_here; cbn; discriminate.
  - rewrite moe_exec_cons.
    destruct (moe_match_here (c :: s)) as [[v' a']|] eqn:E.
    + intros H; inversion H; subst.
      unfold moe_match_here in E; destruct (starts_with _ _); [|discriminate].
      destruct (take_line _); [discriminate|]; inversion E; discriminate.
    + destruct (moe_exec s) as [[[b' v'] a']|] eqn:E'; [|discriminate].
      intros H; inversion H; subst; exact (IH _ eq_refl).
Qed.

Lemma moe_exec_includes (s : str) : includes s MOE_KEY = false -> moe_exec s = None.
Proof.
  induction s as [|c s IH]; intros Hs; [reflexivity|].
  rewrite moe_exec_cons, moe_match_here_no_key.
  - rewrite (IH (includes_cons_false _ _ _ Hs)); reflexivity.
  - cbn [includes] in Hs; apply orb_false_iff in Hs as [Hs _]; exact Hs.
Qed.

Lemma env_fold_lookup (trim : str -> str) (k : str) (lines : list str) (m : list (str * str)) :
  str_eqb k (lit "__proto__") = false ->
  lookup_env (fold_left (fun m line => match parse_line trim line with
                                       | Some (k, v) => set_env m k v
                                       | None => m
                                       end) lines m) k =
  fold_left (fun acc kv => if str_eqb (fst kv) k then Some (snd kv) else acc)
    (flat_map (fun line => match parse_line trim line with
                           | Some kv => [kv]
                           | None => []
                           end) lines) (lookup_env m k).
Proof.
  intros Hk; revert m.
  induction lines as [|line lines IH]; intros m; [reflexivity|].
  cbn [fold_left flat_map]; rewrite IH, fold_left_app.
  destruct (parse_line trim line) as [[k' v]|]; [|reflexivity].
  cbn [fold_left fst snd]; rewrite lookup_set_env by exact Hk; reflexivity.
Qed.

End DeployFacts.

Import DeployScript DeployFacts.

(** X16: a line of [.env.local] with no [=] contributes nothing, and a
    line [k=v] whose key part [k] has no [=] (and which is neither blank
    nor starts with [#]) binds [trim(k)] to [trim(v)]: splitting on [=]
    and joining the tail with [=] gives back the whole text after the
    first [=], so a value keeps its own [=] signs. *)
Theorem parse_line_first_equals (trim : str -> str) (line : str) :
  (~ In "="%char line -> parse_line trim line = None) /\
  (forall k v, line = (k ++ "="%char :: v)%list -> ~ In "="%char k ->
     trim line <> [] -> starts_with line (lit "#") = false ->
     parse_line trim line = Some (trim k, trim v)).
Proof.
  split.
  - intros Hn; unfold parse_line; rewrite split_on_no_sep by exact Hn.
    destruct (_ && _); reflexivity.
  - intros k v -> Hk Ht Hh; unfold parse_line.
    replace (str_eqb (trim (k ++ "="%char :: v)%list) []) with false
      by (symmetry; destruct (str_eqb _ _) eqn:E; [apply str_eqb_eq in E; contradiction|reflexivity]).
    rewrite Hh; cbn [negb andb].
    rewrite split_on_app by exact Hk.
    cbn [length hd tl].
    destruct (split_on "="%char v) as [|p ps] eqn:Es; [exfalso; exact (split_on_not_nil _ _ Es)|].
    cbn [Nat.leb length]; rewrite <- Es, join_split; reflexivity.
Qed.

Lemma parse_line_first_equals_witness :
  parse_line (fun x => x) (lit "MOE_API_URL=http://h/?a=b") =
  Some (lit "MOE_API_URL", lit "http://h/?a=b").
Proof.
  destruct (parse_line_first_equals (fun x => x) (lit "MOE_API_URL=http://h/?a=b")) as [_ H].
  apply (H (lit "MOE_API_URL") (lit "http://h/?a=b")).
  - reflexivity.
  - vm_compute; intros Hin; repeat destruct Hin as [Hin|Hin]; discriminate Hin || contradiction.
  - discriminate.
  - reflexivity.
Defined.

(** X17: in the [envVars] object of [createVercelEnvFile], every key
    other than [__proto__] holds the value of its last binding line
    (later lines override earlier ones), and [__proto__] never becomes a
    key. *)
Theorem env_vars_last_binding (trim : str -> str) (envContent : str) :
  (forall k, str_eqb k (lit "__proto__") = false ->
     lookup_env (env_vars trim envContent) k =
     last_binding k (flat_map (fun line => match parse_line trim line with
                                           | Some kv => [kv]
                                           | None => []
                                           end) (split_on LF envContent))) /\
  lookup_env (env_vars trim envContent) (lit "__proto__") = None.
Proof.
  unfold env_vars, last_binding.
  split.
  - intros k Hk; exact (env_fold_lookup trim k _ [] Hk).
  - assert (Hinv : forall lines m,
               Forall (fun kv => str_eqb (fst kv) (lit "__proto__") = false) m ->
               Forall (fun kv => str_eqb (fst kv) (lit "__proto__") = false)
                 (fold_left (fun m line => match parse_line trim line with
                                           | Some (k, v) => set_env m k v
                                           | None => m
                                           end) lines m)).
    { induction lines as [|line lines IH]; intros m Hm; [exact Hm|].
      cbn [fold_left]; apply IH.
      destruct (parse_line trim line) as [[k v]|]; [apply set_env_no_proto|]; exact Hm. }
    specialize (Hinv (split_on LF envContent) [] (Forall_nil _)).
    unfold lookup_env.
    destruct (find _ _) as [[k v]|] eqn:Ef; [|reflexivity].
    apply find_some in Ef as [Hin Hk]; cbn in Hk.
    rewrite Forall_forall in Hinv; specialize (Hinv _ Hin); cbn in Hinv; congruence.
Qed.

(** X18: when [.env.local] is missing or has no [MOE_API_URL=] at all,
    [checkMoeApiUrl] returns the trimmed answer and appends the line
    [MOE_API_URL=<answer>]; a URL that is non-empty and has no line
    terminator is then read back by the next run, which neither prompts
    nor writes, while an empty answer leaves a line that the next run
    still treats as unset. *)
Theorem checkMoeApiUrl_append_roundtrip (trim : str -> str) (file : option str)
    (answer answer' : str) :
  match file with Some c => includes c MOE_KEY = false | None => True end ->
  let c' := ((match file with Some c => c | None => [] end) ++ LF :: MOE_KEY ++ trim answer)%list in
  checkMoeApiUrl trim file answer = (trim answer, Some c') /\
  (trim answer <> [] -> clean (trim answer) ->
     moe_match c' = Some (trim answer) /\
     checkMoeApiUrl trim (Some c') answer' = (trim answer, None)) /\
  (trim answer = [] -> moe_match c' = None).
Proof.
  intros Hf c'.
  set (c := match file with Some c => c | None => [] end) in c'.
  assert (Hc : includes c MOE_KEY = false) by (subst c; destruct file; [exact Hf|reflexivity]).
  assert (Hm : match file with Some c => moe_match c | None => None end = None).
  { destruct file as [c0|]; [|reflexivity].
    unfold moe_match; rewrite (moe_exec_includes _ Hf); reflexivity. }
  split; [|split].
  - unfold checkMoeApiUrl.
    replace (match file with
             | Some envContent => match moe_match envContent with Some v => v | None => [] end
             | None => [] end) with (@nil ascii)
      by (destruct file; [cbn in Hm; rewrite Hm|]; reflexivity).
    cbn [str_eqb list_eq_dec negb].
    fold c; rewrite Hc; reflexivity.
  - intros Hne Hcl.
    assert (He : moe_exec c' = Some ((c ++ [LF])%list, trim answer, [])).
    { subst c'; rewrite moe_exec_after_LF by exact Hc.
      rewrite (moe_exec_key _ Hne Hcl); reflexivity. }
    assert (Hmc : moe_match c' = Some (trim answer)) by (unfold moe_match; rewrite He; reflexivity).
    split; [exact Hmc|].
    unfold checkMoeApiUrl; rewrite Hmc.
    destruct (str_eqb (trim answer) []) eqn:E; [apply str_eqb_eq in E; contradiction|reflexivity].
  - intros Hnil; unfold moe_match; subst c'.
    rewrite moe_exec_after_LF by exact Hc; rewrite Hnil; reflexivity.
Qed.

Lemma checkMoeApiUrl_append_roundtrip_witness :
  let c' := (lit "AUTH_SECRET=x" ++ LF :: MOE_KEY ++ lit "https://moe.example")%list in
  checkMoeApiUrl (fun x => x) (Some (lit "AUTH_SECRET=x")) (lit "https://moe.example") =
    (lit "https://moe.example", Some c') /\
  (lit "https://moe.example" <> [] -> clean (lit "https://moe.example") ->
     moe_match c' = Some (lit "https://moe.example") /\
     checkMoeApiUrl (fun x => x) (Some c') (lit "other") = (lit "https://moe.example", None)) /\
  (lit "https://moe.example" = [] -> moe_match c' = None).
Proof.
  apply (checkMoeApiUrl_append_roundtrip (fun x => x) (Some (lit "AUTH_SECRET=x"))
           (lit "https://moe.example") (lit "other")).
  reflexivity.
Defined.

(** X19: when [.env.local] contains [MOE_API_URL=], [checkMoeApiUrl]
    either returns the value it finds, without prompting or writing, or,
    when every [MOE_API_URL=] is followed by an empty value, prompts and
    writes the file back unchanged: the replacement never applies, the
    answer is returned but not stored, and the next run finds the URL
    unset again. *)
Theorem checkMoeApiUrl_replace_noop (trim : str -> str) (c answer : str) :
  includes c MOE_KEY = true ->
  match moe_match c with
  | Some v => checkMoeApiUrl trim (Some c) answer = (v, None)
  | None => checkMoeApiUrl trim (Some c) answer = (trim answer, Some c)
  end.
Proof.
  intros Hc; unfold checkMoeApiUrl, moe_match.
  destruct (moe_exec c) as [[[b v] a]|] eqn:E.
  - destruct (str_eqb v []) eqn:Ev; [|reflexivity].
    apply str_eqb_eq in Ev; exfalso; exact (moe_exec_capture _ _ _ _ E Ev).
  - cbn [str_eqb list_eq_dec negb]; rewrite Hc.
    unfold moe_replace; rewrite E; reflexivity.
Qed.

Lemma checkMoeApiUrl_replace_noop_witness :
  checkMoeApiUrl (fun x => x) (Some (lit "MOE_API_URL=")) (lit "https://moe.example") =
  (lit "https://moe.example", Some (lit "MOE_API_URL=")).
Proof.
  apply (checkMoeApiUrl_replace_noop (fun x => x) (lit "MOE_API_URL=") (lit "https://moe.example")).
  reflexivity.
Defined.
